(** * Verification of the live transcription orchestrator of transcribeRx

    Shallow embedding of the session logic of the React client
    ([App] component, [src/unnamed/part_001]): the inbound transcript
    handler of the WebSocket ([onmessage]), the debounced analysis
    scheduler ([detectDiseasesDebounced]), the similarity gate
    ([calculateSimilarity]), the disease aggregation ([detectDiseases],
    [setDiseases] updater) and [stopRecording] with the terminal
    SOAP / recommendation calls; then [startSession], [startRecording]
    with its socket URL ([buildWsUrl]) and audio callback
    ([onaudioprocess]), and [formatTime]. *)

From Stdlib Require Import String Ascii.
From Stdlib Require Import List Bool Arith Lia ZArith NArith QArith.
From Stdlib Require Import Permutation Qround.
From Stdlib Require DecimalNat.
Import ListNotations.

(** ** JavaScript strings

    A JS string is a sequence of UTF-16 code units; a code unit is an [N].
    [js] turns an ASCII literal into the corresponding code units, to
    write concrete inputs. *)

Definition jschar := N.
Definition jsstr := list jschar.

Definition js (s : string) : jsstr :=
  map (fun c => N_of_ascii c) (list_ascii_of_string s).

Definition jsstr_eq_dec : forall a b : jsstr, {a = b} + {a <> b} :=
  list_eq_dec N.eq_dec.

Definition jsstr_eqb (a b : jsstr) : bool :=
  if jsstr_eq_dec a b then true else false.

(** Truthiness of a string value: [!s] holds exactly for [""]. *)
Definition truthy (s : jsstr) : bool :=
  match s with [] => false | _ => true end.

(** Truthiness of an optional string field of a parsed JSON message
    ([undefined] and [""] are falsy). *)
Definition truthy_opt (s : option jsstr) : bool :=
  match s with Some t => truthy t | None => false end.

(** The characters matched by the regular expression class [\s]
    (WhiteSpace and LineTerminator of ECMA-262); [String.prototype.trim]
    strips the same set. *)
Definition is_ws (c : jschar) : bool :=
  existsb (N.eqb c)
    [9; 10; 11; 12; 13; 32; 160; 5760;
     8192; 8193; 8194; 8195; 8196; 8197; 8198; 8199; 8200; 8201; 8202;
     8232; 8233; 8239; 8287; 12288; 65279]%N.

(** [s.split(/\s+/)]: the pieces between maximal runs of whitespace; a
    leading (trailing) run yields a leading (trailing) empty piece, and
    [""] splits to [[""]]. [cur] is the current piece, reversed;
    [prev_ws] says the previous character was whitespace. *)
Fixpoint split_ws_aux (cur : jsstr) (prev_ws : bool) (s : jsstr) : list jsstr :=
  match s with
  | [] => [rev cur]
  | c :: s' =>
      if is_ws c then
        if prev_ws then split_ws_aux cur true s'
        else rev cur :: split_ws_aux [] true s'
      else split_ws_aux (c :: cur) false s'
  end.

Definition split_ws (s : jsstr) : list jsstr := split_ws_aux [] false s.

(** [s.split(sep)] for a one-character separator: every occurrence
    separates, so consecutive separators yield empty pieces. *)
Fixpoint split_char_aux (sep : jschar) (cur : jsstr) (s : jsstr) : list jsstr :=
  match s with
  | [] => [rev cur]
  | c :: s' =>
      if N.eqb c sep then rev cur :: split_char_aux sep [] s'
      else split_char_aux sep (c :: cur) s'
  end.

Definition split_char (sep : jschar) (s : jsstr) : list jsstr :=
  split_char_aux sep [] s.

(** [arr.join(sep)]. *)
Fixpoint join (sep : jsstr) (l : list jsstr) : jsstr :=
  match l with
  | [] => []
  | [x] => x
  | x :: l' => x ++ sep ++ join sep l'
  end.

(** Drops the leading whitespace of a string. *)
Fixpoint skip_ws (s : jsstr) : jsstr :=
  match s with
  | c :: s' => if is_ws c then skip_ws s' else s
  | [] => []
  end.

(** [s.trim()]. *)
Definition trim (s : jsstr) : jsstr := rev (skip_ws (rev (skip_ws s))).

(** ** JavaScript [Set] of strings

    A [Set] keeps the first occurrence of each element, in insertion
    order; membership is [SameValueZero], which on strings is equality of
    the code-unit sequences. *)

Definition mem (x : jsstr) (l : list jsstr) : bool :=
  if in_dec jsstr_eq_dec x l then true else false.

Definition set_add (acc : list jsstr) (x : jsstr) : list jsstr :=
  if mem x acc then acc else acc ++ [x].

(** [new Set(arr)]. *)
Definition js_set (l : list jsstr) : list jsstr := fold_left set_add l [].

(** ** Similarity gate ([calculateSimilarity])

    [String.prototype.toLowerCase] is the Unicode default case mapping; the
    development is parametric in it. *)

Section Similarity.
Variable toLowerCase : jsstr -> jsstr.

Definition calculateSimilarity (text1 text2 : jsstr) : Q :=
  if negb (truthy text1) || negb (truthy text2) then 0%Q else
  let words1 := js_set (split_ws (toLowerCase text1)) in
  let words2 := js_set (split_ws (toLowerCase text2)) in
  let intersection := js_set (filter (fun x => mem x words2) words1) in
  let union := js_set (words1 ++ words2) in
  if Nat.ltb 0 (length union)
  then (inject_Z (Z.of_nat (length intersection)) / inject_Z (Z.of_nat (length union)))%Q
  else 0%Q.

End Similarity.

(** Lower-casing of the ASCII range, which is what [toLowerCase] does on
    ASCII input; used to evaluate concrete inputs. *)
Definition ascii_lower (s : jsstr) : jsstr :=
  map (fun c => if (65 <=? c)%N && (c <=? 90)%N then (c + 32)%N else c) s.

(** ** Inbound protocol messages

    A parsed JSON message [{text, words?: [{word, speaker_tag}], is_final,
    error?}]. Absent fields are [None]. *)

Record Word := mkWord {
  word : option jsstr;
  speaker_tag : option jsstr
}.

Record Message := mkMessage {
  text : option jsstr;
  words : option (list Word);
  is_final : bool;
  error : option jsstr
}.

(** What [onmessage] receives: a string frame, parsed by [JSON.parse]
    ([None] when parsing throws, which the handler catches), or a binary
    frame, which it ignores. *)
Inductive Inbound :=
| InText (m : option Message)
| InBinary.

(** ** Speaker grouping and the key order of a JS object

    [speakerGroups] is a plain object; [Object.entries] lists its
    array-index keys (canonical decimal numerals below [2^32 - 1]) first,
    in ascending numeric order, then the other string keys in insertion
    order. *)

Definition is_digit (c : jschar) : bool := (48 <=? c)%N && (c <=? 57)%N.

Definition digits_value (k : jsstr) : N :=
  fold_left (fun acc c => (acc * 10 + (c - 48))%N) k 0%N.

Definition is_array_index (k : jsstr) : bool :=
  match k with
  | [] => false
  | c :: rest =>
      forallb is_digit k
      && (match rest with [] => true | _ => negb (N.eqb c 48) end)
      && (digits_value k <? 4294967295)%N
  end.

Section ObjectOrder.
Context {A : Type}.

Fixpoint insert_by_index (e : jsstr * A) (l : list (jsstr * A)) : list (jsstr * A) :=
  match l with
  | [] => [e]
  | e' :: l' =>
      if (digits_value (fst e) <? digits_value (fst e'))%N then e :: l
      else e' :: insert_by_index e l'
  end.

(** [Object.entries(o)] for an object whose own properties, in insertion
    order, are [props]. *)
Definition object_entries (props : list (jsstr * A)) : list (jsstr * A) :=
  fold_right insert_by_index [] (filter (fun e => is_array_index (fst e)) props)
  ++ filter (fun e => negb (is_array_index (fst e))) props.

End ObjectOrder.

(** [speakerGroups[speaker].push(word.word)], creating the group on the
    first word of a speaker. *)
Fixpoint push_group (speaker : jsstr) (w : option jsstr)
    (g : list (jsstr * list (option jsstr))) : list (jsstr * list (option jsstr)) :=
  match g with
  | [] => [(speaker, [w])]
  | (k, ws) :: g' =>
      if jsstr_eqb k speaker then (k, ws ++ [w]) :: g'
      else (k, ws) :: push_group speaker w g'
  end.

(** [word.speaker_tag || 'SPEAKER_1']. *)
Definition speaker_of (w : Word) : jsstr :=
  match speaker_tag w with
  | Some t => if truthy t then t else js "SPEAKER_1"
  | None => js "SPEAKER_1"
  end.

(** The own properties of [speakerGroups], in insertion order. *)
Definition WordGroups := list (jsstr * list (option jsstr)).

(** The own property of a key (the first entry with that key). *)
Fixpoint group_lookup (k : jsstr) (g : WordGroups) : option (list (option jsstr)) :=
  match g with
  | [] => None
  | (k', ws) :: g' => if jsstr_eqb k' k then Some ws else group_lookup k g'
  end.

(** The properties an object literal [{}] inherits from
    [Object.prototype] (ECMA-262, with the Annex B accessors). Each of
    them is truthy (a function, or for [__proto__] the prototype object)
    and has no [push] method. *)
Definition proto_names : list jsstr :=
  map js ["constructor"; "hasOwnProperty"; "isPrototypeOf"; "propertyIsEnumerable";
          "toLocaleString"; "toString"; "valueOf"; "__proto__";
          "__defineGetter__"; "__defineSetter__"; "__lookupGetter__"; "__lookupSetter__"]%string.

Definition is_proto_name (k : jsstr) : bool := mem k proto_names.

(** One iteration of [data.words.forEach]:
    [if (!speakerGroups[speaker]) speakerGroups[speaker] = [];
     speakerGroups[speaker].push(word.word)]. An own group is an array
    (truthy); a missing key is created; an inherited member is truthy, so
    no group is created and calling its [push] throws a [TypeError]
    ([None]). *)
Definition group_word (g : WordGroups) (w : Word) : option WordGroups :=
  let speaker := speaker_of w in
  match group_lookup speaker g with
  | Some _ => Some (push_group speaker (word w) g)
  | None =>
      if is_proto_name speaker then None
      else Some (push_group speaker (word w) g)
  end.

(** The grouping loop; [None] when it throws. *)
Definition speakerGroups (ws : list Word) : option WordGroups :=
  fold_left (fun acc w => match acc with Some g => group_word g w | None => None end)
    ws (Some []).

(** [words.join(' ')]: an [undefined] element renders as [""]. *)
Definition join_words (ws : list (option jsstr)) : jsstr :=
  join (js " ") (map (fun w => match w with Some t => t | None => [] end) ws).

Definition speakerLabel (speaker : jsstr) : jsstr :=
  if jsstr_eqb speaker (js "SPEAKER_2") then js "Patient" else js "Doctor".

Definition newline : jsstr := [10%N].

(** [formattedText] of a message whose [text] is [t]; [None] when the
    grouping throws. *)
Definition formatTranscript (m : Message) (t : jsstr) : option jsstr :=
  match words m with
  | Some ((_ :: _) as ws) =>
      match speakerGroups ws with
      | Some g =>
          Some (join newline
                  (map (fun e => speakerLabel (fst e) ++ js ": " ++ join_words (snd e))
                     (object_entries g)))
      | None => None
      end
  | _ => Some t
  end.

(** ** Detections and their aggregation *)

Inductive Severity := Low | Medium | High.

Record DiseaseHighlight := mkDisease {
  disease : jsstr;
  disease_name : option jsstr;
  icd10_code : option jsstr;
  confidence : Q;
  severity : Severity;
  position : nat * nat;
  supporting_symptoms : option (list jsstr)
}.

Definition name_eq_dec (a b : option jsstr) : {a = b} + {a <> b}.
Proof. decide equality; apply jsstr_eq_dec. Defined.


(** The [setDiseases] updater of [detectDiseases]:
    [existing = new Set(prev.map(d => d.disease_name))] (membership in
    the set is membership in the mapped list) and
    [[...prev, ...data.detections.filter(d => !existing.has(d.disease_name))]]. *)
Definition mergeDetections (prev incoming : list DiseaseHighlight) : list DiseaseHighlight :=
  let existing := map disease_name prev in
  prev ++ filter (fun d => if in_dec name_eq_dec (disease_name d) existing
                           then false else true) incoming.

(** ** Session state of the [App] component

    The React state slots and refs the recording logic touches. [out] is
    the trace of outward effects, oldest first: analysis requests, socket
    sends and closes, audio teardown, SOAP / recommendation requests and
    alerts. *)

Inductive ReadyState := CONNECTING | OPEN | CLOSING | CLOSED.

Definition ready_state_eq_dec (a b : ReadyState) : {a = b} + {a <> b}.
Proof. decide equality. Defined.

Inductive Effect :=
| AnalyzeCall (transcript : jsstr)      (* POST /v1/analyze *)
| WsSend (payload : jsstr)             (* wsRef.current.send(string) *)
| WsClose (code : N) (reason : jsstr)  (* wsRef.current.close(code, reason) *)
| DisconnectAudio                      (* source / processor disconnect *)
| SoapCall (transcript : jsstr)         (* POST /v1/soap/generate *)
| RecCall (transcript : jsstr)          (* POST /v1/recommendations/generate *)
| Alert (msg : jsstr).

Record App := mkApp {
  session : option jsstr;                     (* session.session_id *)
  ws : option ReadyState;                     (* wsRef.current *)
  audioNodes : bool;                          (* audioNodesRef.current <> null *)
  isRecording : bool;
  isConnected : bool;
  isLiveTranscribing : bool;
  liveTranscriptHistory : list jsstr;
  liveTranscript : jsstr;
  lastDetectedText : jsstr;                   (* lastDetectedTextRef *)
  diseaseDetectionTimer : option (nat * jsstr); (* pending timeout: due time, text *)
  diseases : list DiseaseHighlight;
  out : list Effect
}.

Definition emit (e : list Effect) (s : App) : App :=
  mkApp (session s) (ws s) (audioNodes s) (isRecording s) (isConnected s)
    (isLiveTranscribing s) (liveTranscriptHistory s) (liveTranscript s)
    (lastDetectedText s) (diseaseDetectionTimer s) (diseases s) (out s ++ e).

Definition set_timer (t : option (nat * jsstr)) (s : App) : App :=
  mkApp (session s) (ws s) (audioNodes s) (isRecording s) (isConnected s)
    (isLiveTranscribing s) (liveTranscriptHistory s) (liveTranscript s)
    (lastDetectedText s) t (diseases s) (out s).

Definition set_last (t : jsstr) (s : App) : App :=
  mkApp (session s) (ws s) (audioNodes s) (isRecording s) (isConnected s)
    (isLiveTranscribing s) (liveTranscriptHistory s) (liveTranscript s)
    t (diseaseDetectionTimer s) (diseases s) (out s).

Definition set_history (h : list jsstr) (s : App) : App :=
  mkApp (session s) (ws s) (audioNodes s) (isRecording s) (isConnected s)
    (isLiveTranscribing s) h (liveTranscript s)
    (lastDetectedText s) (diseaseDetectionTimer s) (diseases s) (out s).

Definition set_interim (t : jsstr) (s : App) : App :=
  mkApp (session s) (ws s) (audioNodes s) (isRecording s) (isConnected s)
    (isLiveTranscribing s) (liveTranscriptHistory s) t
    (lastDetectedText s) (diseaseDetectionTimer s) (diseases s) (out s).

Definition set_diseases (d : list DiseaseHighlight) (s : App) : App :=
  mkApp (session s) (ws s) (audioNodes s) (isRecording s) (isConnected s)
    (isLiveTranscribing s) (liveTranscriptHistory s) (liveTranscript s)
    (lastDetectedText s) (diseaseDetectionTimer s) d (out s).

Definition set_ws (w : option ReadyState) (s : App) : App :=
  mkApp (session s) w (audioNodes s) (isRecording s) (isConnected s)
    (isLiveTranscribing s) (liveTranscriptHistory s) (liveTranscript s)
    (lastDetectedText s) (diseaseDetectionTimer s) (diseases s) (out s).

Definition set_audio (a : bool) (s : App) : App :=
  mkApp (session s) (ws s) a (isRecording s) (isConnected s)
    (isLiveTranscribing s) (liveTranscriptHistory s) (liveTranscript s)
    (lastDetectedText s) (diseaseDetectionTimer s) (diseases s) (out s).

Definition set_flags (recording connected live : bool) (s : App) : App :=
  mkApp (session s) (ws s) (audioNodes s) recording connected live
    (liveTranscriptHistory s) (liveTranscript s)
    (lastDetectedText s) (diseaseDetectionTimer s) (diseases s) (out s).

Definition set_connected (c : bool) (s : App) : App :=
  set_flags (isRecording s) c (isLiveTranscribing s) s.

(** ** Disease analysis and its scheduler

    The handlers are closures of the render in which [startRecording]
    ran, so they see the session that was current then; the refs and the
    functional state updaters see the latest values. *)

Section Handlers.
Variable toLowerCase : jsstr -> jsstr.

(** [detectDiseases(text)] up to its first [await]: the request is sent
    when there is a session. Its response arrives as a separate event. *)
Definition detectDiseases (t : jsstr) (s : App) : App :=
  match session s with
  | None => s
  | Some _ => emit [AnalyzeCall t] s
  end.

(** The threshold [0.85]. *)
Definition similarity_threshold : Q := 17 # 20.

(** [detectDiseasesDebounced(text)] called at time [now] (ms). *)
Definition detectDiseasesDebounced (now : nat) (t : jsstr) (s : App) : App :=
  let s1 := set_timer None s in
  if Nat.ltb (length t) 10 then s1
  else if negb (Qle_bool (calculateSimilarity toLowerCase (lastDetectedText s1) t)
                         similarity_threshold)
  then s1
  else set_timer (Some ((now + 1500)%nat, t)) s1.

(** The pending timeout fires once the clock reaches its due time. *)
Definition timerCallback (now : nat) (s : App) : App :=
  match diseaseDetectionTimer s with
  | Some (due, t) =>
      if Nat.leb due now then detectDiseases t (set_last t (set_timer None s))
      else s
  | None => s
  end.

(** The response of an analysis request: [None] for a failed request or
    a body without [detections]. *)
Definition analysisResponse (r : option (list DiseaseHighlight)) (s : App) : App :=
  match r with
  | Some ((_ :: _) as dets) => set_diseases (mergeDetections (diseases s) dets) s
  | _ => s
  end.

(** The [data.text] branch of [onmessage]. *)
Definition onText (now : nat) (m : Message) (s : App) : App :=
  match text m with
  | Some t =>
      if truthy t then
        match formatTranscript m t with
        | None => s  (* the TypeError is caught: the message is dropped *)
        | Some formattedText =>
            if is_final m then
              detectDiseases formattedText
                (set_interim [] (set_history (liveTranscriptHistory s ++ [formattedText]) s))
            else
              let s1 := set_interim formattedText s in
              if Nat.leb 5 (length (split_char 32%N t))
              then detectDiseasesDebounced now t s1 else s1
        end
      else s
  | None => s
  end.

(** [wsRef.current.onmessage] on a parsed message, at time [now]: a
    message carrying a truthy [error] is alerted and otherwise ignored. *)
Definition onMessage (now : nat) (m : Message) (s : App) : App :=
  if truthy_opt (error m)
  then emit [Alert (js "Transcription error: " ++ match error m with Some e => e | None => [] end)] s
  else onText now m s.

(** [generateSOAP()] up to its request: [fullTranscript] is the history
    joined with a blank line; an empty or blank transcript is alerted and
    nothing is sent. *)
Definition generateSOAP (s : App) : App :=
  match session s with
  | None => s
  | Some _ =>
      let fullTranscript := join [10; 10]%N (liveTranscriptHistory s) in
      if negb (truthy fullTranscript) || negb (truthy (trim fullTranscript))
      then emit [Alert (js "No transcript available. Please record some conversation first.")] s
      else emit [SoapCall fullTranscript] s
  end.

(** [generateRecommendations()] up to its request. *)
Definition generateRecommendations (s : App) : App :=
  match session s with
  | None => s
  | Some _ =>
      let fullTranscript := join [10; 10]%N (liveTranscriptHistory s) in
      if negb (truthy fullTranscript) || negb (truthy (trim fullTranscript))
      then s
      else emit [RecCall fullTranscript] s
  end.

(** [stopRecording()]: audio teardown, socket finalisation, the three
    flags, then [await generateSOAP(); await generateRecommendations()]
    when there is a session. [close(1000, ...)] moves the socket to
    [CLOSING]. *)
Definition stopRecording (s : App) : App :=
  let s1 := if audioNodes s then set_audio false (emit [DisconnectAudio] s) else s in
  let s2 :=
    match ws s1 with
    | Some state =>
        let s' := if ready_state_eq_dec state OPEN
                  then emit [WsSend (js "END_OF_STREAM")] s1 else s1 in
        if ready_state_eq_dec state CLOSING then s'
        else if ready_state_eq_dec state CLOSED then s'
        else set_ws (Some CLOSING) (emit [WsClose 1000 (js "Client stopped")] s')
    | None => s1
    end in
  let s3 := set_flags false false false s2 in
  if match session s3 with Some _ => true | None => false end
  then generateRecommendations (generateSOAP s3)
  else s3.

(** Events of a recording session, as the event loop dispatches them. *)
Inductive Event :=
| Deliver (now : nat) (msg : Inbound)             (* ws onmessage *)
| TimerDue (now : nat)                            (* clock reaches [now] *)
| AnalysisDone (r : option (list DiseaseHighlight)) (* /v1/analyze settles *)
| SocketOpen                                      (* ws onopen *)
| SocketClose (code : N)                          (* ws onclose *)
| SocketError                                     (* ws onerror *)
| StopClicked.                                    (* stopRecording() *)

Definition step (s : App) (e : Event) : App :=
  match e with
  | Deliver now (InText (Some m)) => onMessage now m s
  | Deliver _ _ => s
  | TimerDue now => timerCallback now s
  | AnalysisDone r => analysisResponse r s
  | SocketOpen => set_flags true true (isLiveTranscribing s) (set_ws (Some OPEN) s)
  | SocketClose _ => set_connected false (set_ws (Some CLOSED) s)
  | SocketError => set_connected false s
  | StopClicked => stopRecording s
  end.

Definition run (s : App) (es : list Event) : App := fold_left step es s.

End Handlers.


Example split_ws_edges :
  split_ws (js " a  b ") = [js ""; js "a"; js "b"; js ""] /\ split_ws [] = [[]].
Proof. split; reflexivity. Qed.

Example similarity_sample :
  (calculateSimilarity ascii_lower (js "Chest pain now") (js "chest pain today") == 2 # 4)%Q.
Proof. reflexivity. Qed.

(** ** Sets, membership and splitting *)

Lemma mem_In x l : mem x l = true <-> In x l.
Proof. unfold mem; destruct (in_dec jsstr_eq_dec x l); split; congruence. Qed.

Lemma fold_set_add_spec l : forall acc,
  NoDup acc ->
  NoDup (fold_left set_add l acc) /\
  (forall x, In x (fold_left set_add l acc) <-> In x acc \/ In x l).
Proof.
  induction l as [|y l IH]; intros acc Hnd; simpl.
  - split; [assumption | intuition].
  - destruct (mem y acc) eqn:Hm.
    + assert (Hs : set_add acc y = acc) by (unfold set_add; rewrite Hm; reflexivity).
      rewrite Hs. apply mem_In in Hm.
      destruct (IH acc Hnd) as [H1 H2]. split; [assumption|].
      intro x; rewrite H2; split; [tauto|].
      intros [H|[H|H]]; subst; tauto.
    + assert (Hs : set_add acc y = acc ++ [y]) by (unfold set_add; rewrite Hm; reflexivity).
      rewrite Hs.
      assert (Hy : ~ In y acc) by (rewrite <- mem_In; congruence).
      assert (Hnd' : NoDup (acc ++ [y])).
      { apply NoDup_app; [assumption | constructor; [intros []| constructor] |].
        intros z Hz [Hz'|[]]; subst; contradiction. }
      destruct (IH _ Hnd') as [H1 H2]. split; [assumption|].
      intro x; rewrite H2, in_app_iff; simpl; tauto.
Qed.

Lemma js_set_NoDup l : NoDup (js_set l).
Proof. apply (fold_set_add_spec l []); constructor. Qed.

Lemma js_set_In l x : In x (js_set l) <-> In x l.
Proof.
  destruct (fold_set_add_spec l [] (NoDup_nil _)) as [_ H].
  unfold js_set; rewrite H; simpl; tauto.
Qed.

(** Two duplicate-free lists with the same elements have the same size. *)
Lemma same_elements_length (a b : list jsstr) :
  NoDup a -> NoDup b -> (forall x, In x a <-> In x b) -> length a = length b.
Proof.
  intros Ha Hb Hab. apply Permutation_length, NoDup_Permutation; assumption.
Qed.

Lemma split_ws_aux_nonempty s : forall cur b, split_ws_aux cur b s <> [].
Proof.
  induction s as [|c s IH]; intros cur b; simpl; [discriminate|].
  destruct (is_ws c); [destruct b|]; [apply IH | discriminate | apply IH].
Qed.

Lemma split_ws_nonempty s : split_ws s <> [].
Proof. apply split_ws_aux_nonempty. Qed.

Lemma js_set_length_pos l : l <> [] -> (0 < length (js_set l))%nat.
Proof.
  destruct l as [|x l]; [congruence|]. intros _.
  assert (Hx : In x (js_set (x :: l))) by (apply js_set_In; left; reflexivity).
  destruct (js_set (x :: l)); [contradiction | simpl; lia].
Qed.

(** The word set of one input of the gate. *)
Definition word_set (toLowerCase : jsstr -> jsstr) (t : jsstr) : list jsstr :=
  js_set (split_ws (toLowerCase t)).

Lemma calculateSimilarity_unfold toLowerCase a b :
  truthy a = true -> truthy b = true ->
  calculateSimilarity toLowerCase a b =
  (let A := word_set toLowerCase a in
   let B := word_set toLowerCase b in
   let I := js_set (filter (fun x => mem x B) A) in
   let U := js_set (A ++ B) in
   if Nat.ltb 0 (length U)
   then inject_Z (Z.of_nat (length I)) / inject_Z (Z.of_nat (length U))
   else 0)%Q.
Proof. intros Ha Hb. unfold calculateSimilarity. rewrite Ha, Hb. reflexivity. Qed.

Lemma intersection_In A B x :
  In x (js_set (filter (fun y => mem y B) A)) <-> In x A /\ In x B.
Proof. rewrite js_set_In, filter_In, mem_In. tauto. Qed.

Lemma union_In A B x : In x (js_set (A ++ B)) <-> In x A \/ In x B.
Proof. rewrite js_set_In, in_app_iff. tauto. Qed.

Lemma Q_of_nat_div_diag (n : nat) :
  (0 < n)%nat -> (inject_Z (Z.of_nat n) / inject_Z (Z.of_nat n) == 1)%Q.
Proof.
  intro Hn. unfold Qdiv. apply Qmult_inv_r.
  intro H. change (inject_Z (Z.of_nat n) == inject_Z 0)%Q in H.
  rewrite inject_Z_injective in H. lia.
Qed.

(** Symmetry of the intersection and union sizes. *)
Lemma intersection_length_comm A B :
  length (js_set (filter (fun x => mem x B) A))
  = length (js_set (filter (fun x => mem x A) B)).
Proof.
  apply same_elements_length; try apply js_set_NoDup.
  intro x; rewrite !intersection_In; tauto.
Qed.

Lemma union_length_comm A B :
  length (js_set (A ++ B)) = length (js_set (B ++ A)).
Proof.
  apply same_elements_length; try apply js_set_NoDup.
  intro x; rewrite !union_In; tauto.
Qed.

(** Claim C7: the similarity gate scores a non-empty string against
    itself as 1, scores 0 whenever either side is the empty string, is
    symmetric, and is the Jaccard index [|A ∩ B| / |A ∪ B|] of the sets of
    lower-cased whitespace-split tokens of its inputs (the sets [I] and
    [U] below are the intersection and the union of those token sets).
    This holds for every lower-casing function. *)
Theorem similarity_gate_laws (toLowerCase : jsstr -> jsstr) :
  (forall c r, (calculateSimilarity toLowerCase (c :: r) (c :: r) == 1)%Q) /\
  (forall y, calculateSimilarity toLowerCase [] y = 0%Q /\
             calculateSimilarity toLowerCase y [] = 0%Q) /\
  (forall a b, calculateSimilarity toLowerCase a b = calculateSimilarity toLowerCase b a) /\
  (forall c1 r1 c2 r2,
     let a := c1 :: r1 in let b := c2 :: r2 in
     exists I U : list jsstr,
       NoDup I /\ NoDup U /\ (0 < length U)%nat /\
       (forall x, In x I <-> In x (split_ws (toLowerCase a)) /\ In x (split_ws (toLowerCase b))) /\
       (forall x, In x U <-> In x (split_ws (toLowerCase a)) \/ In x (split_ws (toLowerCase b))) /\
       (calculateSimilarity toLowerCase a b ==
          inject_Z (Z.of_nat (length I)) / inject_Z (Z.of_nat (length U)))%Q).
Proof.
  split; [|split; [|split]].
  - intros c r. rewrite calculateSimilarity_unfold by reflexivity. cbv zeta.
    set (W := word_set toLowerCase (c :: r)).
    assert (HW : (0 < length W)%nat)
      by (apply js_set_length_pos, split_ws_nonempty).
    assert (HI : length (js_set (filter (fun x => mem x W) W)) = length W).
    { apply same_elements_length; [apply js_set_NoDup | apply js_set_NoDup |].
      intro x; rewrite intersection_In; tauto. }
    assert (HU : length (js_set (W ++ W)) = length W).
    { apply same_elements_length; [apply js_set_NoDup | apply js_set_NoDup |].
      intro x; rewrite union_In; tauto. }
    rewrite HI, HU. apply Nat.ltb_lt in HW. rewrite HW.
    apply Q_of_nat_div_diag, Nat.ltb_lt, HW.
  - intro y; split; [reflexivity|].
    unfold calculateSimilarity. rewrite orb_true_r. reflexivity.
  - intros a b.
    destruct a as [|ca ra]; [destruct b; reflexivity|].
    destruct b as [|cb rb]; [reflexivity|].
    rewrite !calculateSimilarity_unfold by reflexivity. cbv zeta.
    rewrite intersection_length_comm, union_length_comm. reflexivity.
  - intros c1 r1 c2 r2 a b.
    set (A := word_set toLowerCase a). set (B := word_set toLowerCase b).
    exists (js_set (filter (fun x => mem x B) A)), (js_set (A ++ B)).
    assert (HU : (0 < length (js_set (A ++ B)))%nat).
    { apply js_set_length_pos. unfold A, word_set.
      destruct (js_set (split_ws (toLowerCase a))) eqn:E; [|discriminate].
      pose proof (js_set_length_pos _ (split_ws_nonempty (toLowerCase a))) as H.
      rewrite E in H. simpl in H. lia. }
    split; [apply js_set_NoDup|]. split; [apply js_set_NoDup|]. split; [exact HU|].
    split; [intro x; rewrite intersection_In; unfold A, B, word_set; rewrite !js_set_In; tauto|].
    split; [intro x; rewrite union_In; unfold A, B, word_set; rewrite !js_set_In; tauto|].
    unfold a, b. rewrite calculateSimilarity_unfold by reflexivity. cbv zeta.
    fold a b A B. apply Nat.ltb_lt in HU. rewrite HU. apply Qeq_refl.
Qed.

(** ** Aggregation *)

Lemma filter_all_false {A} (f : A -> bool) (l : list A) :
  (forall x, In x l -> f x = false) -> filter f l = [].
Proof.
  induction l as [|x l IH]; intro H; simpl; [reflexivity|].
  rewrite (H x (or_introl eq_refl)). apply IH. intros y Hy; apply H; right; exact Hy.
Qed.

(** Claim C6: merging the same incoming detection list a second time
    changes nothing: [merge (merge S L) L = merge S L]; the same holds for
    the state update applied when an analysis response arrives. *)
Theorem mergeDetections_idempotent :
  (forall S L, mergeDetections (mergeDetections S L) L = mergeDetections S L) /\
  (forall toLowerCase r s,
     step toLowerCase (step toLowerCase s (AnalysisDone r)) (AnalysisDone r)
     = step toLowerCase s (AnalysisDone r)).
Proof.
  assert (Hm : forall S L, mergeDetections (mergeDetections S L) L = mergeDetections S L).
  { intros S L. unfold mergeDetections at 1.
    rewrite filter_all_false; [apply app_nil_r|].
    intros d Hd.
    destruct (in_dec name_eq_dec (disease_name d) (map disease_name (mergeDetections S L)))
      as [|Hn]; [reflexivity|].
    exfalso; apply Hn. unfold mergeDetections. rewrite map_app, in_app_iff.
    destruct (in_dec name_eq_dec (disease_name d) (map disease_name S)) as [Hs|Hs];
      [left; exact Hs|].
    right. apply in_map, filter_In. split; [exact Hd|].
    destruct (in_dec name_eq_dec (disease_name d) (map disease_name S)); tauto. }
  split; [exact Hm|].
  intros toLowerCase r s. destruct r as [[|d ds]|]; simpl; try reflexivity.
  rewrite Hm. reflexivity.
Qed.

(** Two detections of one disease, as the scenario of the spec has them. *)
Definition pneumonia (c : Q) : DiseaseHighlight :=
  mkDisease (js "Pneumonia") (Some (js "Pneumonia")) (Some (js "J18.9")) c High (0, 9)%nat None.

(** The recording state right after the socket opened, with an empty
    history and detection set. *)
Definition recording_state (sid : jsstr) : App :=
  mkApp (Some sid) (Some OPEN) true true true true [] [] [] None [] [].

(** Claim C3 (fails): when one analysis response lists the same
    [disease_name] twice, both entries are stored: the filter only looks
    at the names already in the set before the response, not at earlier
    entries of the same response. *)
Theorem duplicate_name_within_one_response :
  let s := step ascii_lower (recording_state (js "s1"))
             (AnalysisDone (Some [pneumonia (9 # 10); pneumonia (6 # 10)])) in
  diseases s = [pneumonia (9 # 10); pneumonia (6 # 10)].
Proof. reflexivity. Qed.

(** ** [stopRecording] *)

(** The effects [stopRecording] emits on the socket, by ready state. *)
Definition socket_effects (w : option ReadyState) : list Effect :=
  match w with
  | Some OPEN => [WsSend (js "END_OF_STREAM"); WsClose 1000 (js "Client stopped")]
  | Some CONNECTING => [WsClose 1000 (js "Client stopped")]
  | _ => []
  end.

(** The effects of the terminal SOAP / recommendation step. *)
Definition terminal_effects (sess : option jsstr) (h : list jsstr) : list Effect :=
  match sess with
  | None => []
  | Some _ =>
      let full := join [10; 10]%N h in
      if negb (truthy full) || negb (truthy (trim full))
      then [Alert (js "No transcript available. Please record some conversation first.")]
      else [SoapCall full; RecCall full]
  end.

Definition is_socket_effect (e : Effect) : bool :=
  match e with WsSend _ | WsClose _ _ => true | _ => false end.

Definition is_terminal_call (e : Effect) : bool :=
  match e with SoapCall _ | RecCall _ => true | _ => false end.

Lemma terminal_steps_spec (s : App) :
  let s' := generateRecommendations (generateSOAP s) in
  s' = mkApp (session s) (ws s) (audioNodes s) (isRecording s) (isConnected s)
         (isLiveTranscribing s) (liveTranscriptHistory s) (liveTranscript s)
         (lastDetectedText s) (diseaseDetectionTimer s) (diseases s)
         (out s ++ terminal_effects (session s) (liveTranscriptHistory s)).
Proof.
  destruct s as [sess w a r c l h it ld tm d o]; cbv zeta; simpl.
  unfold generateSOAP, terminal_effects; simpl.
  destruct sess as [sid|]; [|rewrite app_nil_r; reflexivity].
  set (full := join [10; 10]%N h).
  destruct (negb (truthy full) || negb (truthy (trim full))) eqn:E;
    unfold generateRecommendations, emit; simpl; fold full; rewrite E;
    [rewrite ?app_nil_r | rewrite <- app_assoc]; reflexivity.
Qed.

Lemma stopRecording_spec (s : App) :
  let s' := stopRecording s in
  isRecording s' = false /\ isConnected s' = false /\ isLiveTranscribing s' = false /\
  audioNodes s' = false /\
  ws s' = match ws s with
          | Some OPEN | Some CONNECTING => Some CLOSING
          | w => w
          end /\
  session s' = session s /\ liveTranscriptHistory s' = liveTranscriptHistory s /\
  lastDetectedText s' = lastDetectedText s /\
  diseaseDetectionTimer s' = diseaseDetectionTimer s /\
  out s' = out s ++ (if audioNodes s then [DisconnectAudio] else [])
                 ++ socket_effects (ws s)
                 ++ terminal_effects (session s) (liveTranscriptHistory s).
Proof.
  destruct s as [sess w a r c l h it ld tm d o]; cbv zeta.
  unfold stopRecording.
  destruct a; destruct w as [[]|]; destruct sess as [sid|]; simpl;
    try (rewrite terminal_steps_spec; simpl);
    rewrite ?app_nil_r, <- ?app_assoc; simpl;
    repeat split; reflexivity.
Qed.

Lemma terminal_effects_empty sess :
  forallb (fun e => negb (is_terminal_call e)) (terminal_effects sess []) = true.
Proof. destruct sess; reflexivity. Qed.

Lemma terminal_effects_no_socket sess h :
  forallb (fun e => negb (is_socket_effect e)) (terminal_effects sess h) = true.
Proof.
  destruct sess; [|reflexivity]. unfold terminal_effects.
  destruct (_ || _); reflexivity.
Qed.

(** Claim C8: stopping with an empty transcript history still reaches the
    stopped state (the three flags cleared, audio nodes released, the
    socket closing, closed or absent) and emits no SOAP or recommendation
    request. *)
Theorem stop_with_empty_history (toLowerCase : jsstr -> jsstr) (s : App)
    (Hempty : liveTranscriptHistory s = []) :
  let s' := step toLowerCase s StopClicked in
  isRecording s' = false /\ isConnected s' = false /\ isLiveTranscribing s' = false /\
  audioNodes s' = false /\
  (ws s' = None \/ ws s' = Some CLOSING \/ ws s' = Some CLOSED) /\
  exists fx, out s' = out s ++ fx /\
             forallb (fun e => negb (is_terminal_call e)) fx = true.
Proof.
  cbv zeta; simpl.
  destruct (stopRecording_spec s) as (H1 & H2 & H3 & H4 & H5 & _ & _ & _ & _ & H10).
  repeat split; try assumption.
  - rewrite H5. destruct (ws s) as [[]|]; auto.
  - eexists; split; [exact H10|].
    rewrite Hempty, !forallb_app, terminal_effects_empty.
    destruct (audioNodes s); destruct (ws s) as [[]|]; reflexivity.
Qed.

Lemma stop_with_empty_history_witness :
  liveTranscriptHistory (recording_state (js "s1")) = [] /\
  isRecording (step ascii_lower (recording_state (js "s1")) StopClicked) = false.
Proof.
  split; [reflexivity|].
  exact (proj1 (stop_with_empty_history ascii_lower (recording_state (js "s1")) eq_refl)).
Defined.

(** Claim C9: stopping with an open socket sends [END_OF_STREAM] and then
    requests a close with code 1000, with no other socket operation
    before or after; stopping with a socket already closing or closed
    performs no socket operation and leaves its state as it is. *)
Theorem stop_finalizes_socket (toLowerCase : jsstr -> jsstr) (s : App) :
  (ws s = Some OPEN ->
   exists pre post,
     out (step toLowerCase s StopClicked)
       = out s ++ pre ++ [WsSend (js "END_OF_STREAM"); WsClose 1000 (js "Client stopped")] ++ post /\
     forallb (fun e => negb (is_socket_effect e)) (pre ++ post) = true) /\
  (ws s = Some CLOSING \/ ws s = Some CLOSED ->
   ws (step toLowerCase s StopClicked) = ws s /\
   exists fx, out (step toLowerCase s StopClicked) = out s ++ fx /\
              forallb (fun e => negb (is_socket_effect e)) fx = true).
Proof.
  simpl.
  destruct (stopRecording_spec s) as (_ & _ & _ & _ & H5 & _ & _ & _ & _ & H10).
  split.
  - intro Hw. rewrite Hw in H10.
    exists (if audioNodes s then [DisconnectAudio] else []),
           (terminal_effects (session s) (liveTranscriptHistory s)).
    split; [exact H10|].
    rewrite forallb_app, terminal_effects_no_socket.
    destruct (audioNodes s); reflexivity.
  - intros Hw. split.
    + rewrite H5. destruct Hw as [Hw|Hw]; rewrite Hw; reflexivity.
    + eexists; split; [exact H10|].
      rewrite !forallb_app, terminal_effects_no_socket.
      destruct Hw as [Hw|Hw]; rewrite Hw; destruct (audioNodes s); reflexivity.
Qed.

(** A state whose socket has already been closed by the server. *)
Definition closed_socket_state : App :=
  mkApp (Some (js "s1")) (Some CLOSED) true true false true [] [] [] None [] [].

Lemma stop_finalizes_socket_witness :
  ws (recording_state (js "s1")) = Some OPEN /\
  (exists pre post,
     out (step ascii_lower (recording_state (js "s1")) StopClicked)
       = out (recording_state (js "s1")) ++ pre
           ++ [WsSend (js "END_OF_STREAM"); WsClose 1000 (js "Client stopped")] ++ post /\
     forallb (fun e => negb (is_socket_effect e)) (pre ++ post) = true) /\
  ws (step ascii_lower closed_socket_state StopClicked) = ws closed_socket_state.
Proof.
  split; [reflexivity|]. split.
  - exact (proj1 (stop_finalizes_socket ascii_lower (recording_state (js "s1"))) eq_refl).
  - exact (proj1 (proj2 (stop_finalizes_socket ascii_lower closed_socket_state)
                        (or_intror eq_refl))).
Defined.

(** ** Final segments *)






Definition final_chest_pain : Message :=
  mkMessage (Some (js "chest pain since monday")) None true None.


(** ** Debounced analysis *)

(** The text of a debounced request an event makes, if any: an interim
    message with a truthy text whose split on [' '] has at least five
    pieces, and no error. *)
Definition debounce_request (e : Event) : option (nat * jsstr) :=
  match e with
  | Deliver now (InText (Some m)) =>
      if truthy_opt (error m) then None else
      match text m with
      | Some t =>
          if truthy t && negb (is_final m) && Nat.leb 5 (length (split_char 32%N t))
          then Some (now, t) else None
      | None => None
      end
  | _ => None
  end.

Lemma detectDiseases_frame t s :
  diseaseDetectionTimer (detectDiseases t s) = diseaseDetectionTimer s /\
  lastDetectedText (detectDiseases t s) = lastDetectedText s /\
  liveTranscriptHistory (detectDiseases t s) = liveTranscriptHistory s.
Proof. unfold detectDiseases. destruct (session s); repeat split; reflexivity. Qed.

Lemma step_timer_frame (toLowerCase : jsstr -> jsstr) s e :
  debounce_request e = None -> (forall now, e <> TimerDue now) ->
  diseaseDetectionTimer (step toLowerCase s e) = diseaseDetectionTimer s.
Proof.
  intros Hreq Hnt. destruct e as [now [[m|]|]|now|r| |code| |]; simpl; try reflexivity.
  - unfold debounce_request in Hreq. unfold onMessage.
    destruct (truthy_opt (error m)); [reflexivity|].
    unfold onText. destruct (text m) as [t|]; [|reflexivity].
    destruct (truthy t); [|reflexivity].
    destruct (formatTranscript m t) as [f|]; [|reflexivity].
    destruct (is_final m).
    + rewrite (proj1 (detectDiseases_frame _ _)). reflexivity.
    + destruct (Nat.leb 5 (length (split_char 32%N t))); [discriminate | reflexivity].
  - exfalso; exact (Hnt now eq_refl).
  - destruct r as [[|d ds]|]; reflexivity.
  - apply stopRecording_spec.
Qed.

(** Claim C1 (fails): the interim message ["a b c d e"] makes a debounced
    request (five pieces), the similarity to the empty
    [lastDetectedText] is 0, and still no timer is armed: requests with
    fewer than 10 characters are dropped too. *)
Lemma debounce_short_text_counterexample :
  let s := recording_state (js "s1") in
  let t := js "a b c d e" in
  let s' := step ascii_lower s (Deliver 0 (InText (Some (mkMessage (Some t) None false None)))) in
  debounce_request (Deliver 0 (InText (Some (mkMessage (Some t) None false None)))) = Some (0%nat, t) /\
  (calculateSimilarity ascii_lower (lastDetectedText s) t == 0)%Q /\
  diseaseDetectionTimer s' = None /\
  diseaseDetectionTimer (detectDiseasesDebounced ascii_lower 0 t s) = None.
Proof. repeat split; reflexivity. Qed.

(** Claim C1, as amended: a debounced request first cancels the pending
    timer; it is dropped when the text has fewer than 10 code units or
    its similarity to [lastDetectedText] exceeds 0.85, and otherwise arms
    a timer due 1500 ms later (nothing else changes). The timer fires
    once the clock reaches the due time, sets [lastDetectedText] to the
    text and issues the analysis request; before then nothing happens,
    and no event other than a newer debounced request (or the firing)
    touches it. *)
Theorem debounce_schedule (toLowerCase : jsstr -> jsstr) :
  (forall now t s,
     detectDiseasesDebounced toLowerCase now t s =
     set_timer
       (if Nat.ltb (length t) 10
           || negb (Qle_bool (calculateSimilarity toLowerCase (lastDetectedText s) t)
                             similarity_threshold)
        then None else Some ((now + 1500)%nat, t)) s) /\
  (forall due t s later sid,
     session s = Some sid -> diseaseDetectionTimer s = Some (due, t) -> (due <= later)%nat ->
     let s' := step toLowerCase s (TimerDue later) in
     lastDetectedText s' = t /\ out s' = out s ++ [AnalyzeCall t] /\
     diseaseDetectionTimer s' = None /\
     liveTranscriptHistory s' = liveTranscriptHistory s /\ diseases s' = diseases s) /\
  (forall due t s later,
     diseaseDetectionTimer s = Some (due, t) -> (later < due)%nat ->
     step toLowerCase s (TimerDue later) = s) /\
  (forall s e,
     debounce_request e = None -> (forall now, e <> TimerDue now) ->
     diseaseDetectionTimer (step toLowerCase s e) = diseaseDetectionTimer s).
Proof.
  split; [|split; [|split]].
  - intros now t s. unfold detectDiseasesDebounced.
    destruct (Nat.ltb (length t) 10); simpl; [reflexivity|].
    destruct (negb _); simpl; [reflexivity|].
    destruct s; reflexivity.
  - intros due t s later sid Hs Ht Hle. cbv zeta; simpl.
    unfold timerCallback. rewrite Ht.
    apply Nat.leb_le in Hle. rewrite Hle.
    unfold detectDiseases, set_last, set_timer, emit; simpl. rewrite Hs; simpl.
    repeat split; reflexivity.
  - intros due t s later Ht Hlt. simpl. unfold timerCallback. rewrite Ht.
    apply Nat.leb_gt in Hlt. rewrite Hlt. reflexivity.
  - apply step_timer_frame.
Qed.

(** An interim message of nine words, and the state after it. *)
Definition interim_nine : Message :=
  mkMessage (Some (js "patient reports chest pain and shortness of breath")) None false None.

Definition armed_state : App :=
  step ascii_lower (recording_state (js "s1")) (Deliver 100 (InText (Some interim_nine))).

(** A request that passes the gate, and its firing. *)
Lemma debounce_schedule_witness :
  let t := js "patient reports chest pain and shortness of breath" in
  diseaseDetectionTimer armed_state = Some (1600%nat, t) /\
  lastDetectedText (step ascii_lower armed_state (TimerDue 1600)) = t /\
  step ascii_lower armed_state (TimerDue 1599) = armed_state /\
  diseaseDetectionTimer (step ascii_lower armed_state (AnalysisDone None)) = Some (1600%nat, t).
Proof.
  cbv zeta. split; [reflexivity|]. split; [|split].
  - exact (proj1 (proj1 (proj2 (debounce_schedule ascii_lower)) 1600%nat _ armed_state 1600%nat
                   (js "s1") eq_refl eq_refl (le_n _))).
  - exact (proj1 (proj2 (proj2 (debounce_schedule ascii_lower))) 1600%nat _ armed_state 1599%nat
             eq_refl (Nat.lt_succ_diag_r _)).
  - exact (proj2 (proj2 (proj2 (debounce_schedule ascii_lower))) armed_state (AnalysisDone None)
             eq_refl (fun now H => ltac:(discriminate H))).
Defined.

(** ** Interim segments *)








(** ** The analysis gate state *)

Section Gate.
Variable toLowerCase : jsstr -> jsstr.

(** A pending timer holds a text that passed the length guard and the
    similarity gate against the current [lastDetectedText]. *)
Definition gate_ok (s : App) : Prop :=
  match diseaseDetectionTimer s with
  | None => True
  | Some (_, t) =>
      (10 <= length t)%nat /\
      Qle_bool (calculateSimilarity toLowerCase (lastDetectedText s) t) similarity_threshold = true
  end.

Lemma gate_ok_frame s s' :
  diseaseDetectionTimer s' = diseaseDetectionTimer s ->
  lastDetectedText s' = lastDetectedText s ->
  gate_ok s -> gate_ok s'.
Proof. unfold gate_ok. intros Ht Hl. rewrite Ht, Hl. exact (fun H => H). Qed.

Lemma debounced_gate now t s :
  lastDetectedText (detectDiseasesDebounced toLowerCase now t s) = lastDetectedText s /\
  gate_ok (detectDiseasesDebounced toLowerCase now t s).
Proof.
  unfold detectDiseasesDebounced.
  destruct (Nat.ltb (length t) 10) eqn:Hlen; [split; [reflexivity | exact I]|].
  destruct (Qle_bool _ _) eqn:Hq; simpl; [|split; [reflexivity | exact I]].
  split; [reflexivity|]. unfold gate_ok; simpl.
  split; [apply Nat.ltb_ge; exact Hlen | exact Hq].
Qed.

Lemma onMessage_gate now m s :
  gate_ok s ->
  lastDetectedText (onMessage toLowerCase now m s) = lastDetectedText s /\
  gate_ok (onMessage toLowerCase now m s).
Proof.
  intro Hok. unfold onMessage.
  destruct (truthy_opt (error m)); [split; [reflexivity | exact (gate_ok_frame s _ eq_refl eq_refl Hok)]|].
  unfold onText. destruct (text m) as [t|]; [|split; [reflexivity | exact Hok]].
  destruct (truthy t); [|split; [reflexivity | exact Hok]].
  destruct (formatTranscript m t) as [f|]; [|split; [reflexivity | exact Hok]].
  destruct (is_final m).
  - destruct (detectDiseases_frame f
                (set_interim [] (set_history (liveTranscriptHistory s ++ [f]) s)))
      as [Ht [Hl _]].
    split; [exact Hl|]. exact (gate_ok_frame s _ Ht Hl Hok).
  - destruct (Nat.leb 5 (length (split_char 32%N t))).
    + destruct (debounced_gate now t (set_interim f s)) as [Hl Hg].
      split; [exact Hl | exact Hg].
    + split; [reflexivity | exact (gate_ok_frame s _ eq_refl eq_refl Hok)].
Qed.

End Gate.

(** Claim C10: every event keeps the invariant that a pending timer's
    text passed the gate, and [lastDetectedText] is left unchanged by
    every event except the firing of a pending debounce timer, which
    writes that timer's text (a text that passed the length guard and
    the similarity gate). Final segments, dropped requests, responses,
    socket events and stopping never write it. *)
Theorem lastDetectedText_written_only_by_timer (toLowerCase : jsstr -> jsstr)
    (s : App) (e : Event) (Hok : gate_ok toLowerCase s) :
  let s' := step toLowerCase s e in
  gate_ok toLowerCase s' /\
  (lastDetectedText s' = lastDetectedText s \/
   exists now due t,
     e = TimerDue now /\ diseaseDetectionTimer s = Some (due, t) /\ (due <= now)%nat /\
     lastDetectedText s' = t /\ (10 <= length t)%nat /\
     Qle_bool (calculateSimilarity toLowerCase (lastDetectedText s) t)
              similarity_threshold = true).
Proof.
  cbv zeta.
  destruct e as [now [[m|]|]|now|r| |code| |]; simpl;
    try (split; [exact Hok | left; reflexivity]).
  - destruct (onMessage_gate toLowerCase now m s Hok) as [Hl Hg].
    split; [exact Hg | left; exact Hl].
  - unfold timerCallback.
    destruct (diseaseDetectionTimer s) as [[due t]|] eqn:Ht;
      [|split; [exact Hok | left; reflexivity]].
    destruct (Nat.leb due now) eqn:Hle; [|split; [exact Hok | left; reflexivity]].
    destruct (detectDiseases_frame t (set_last t (set_timer None s))) as [Htm [Hl _]].
    split.
    + unfold gate_ok. rewrite Htm. exact I.
    + right. exists now, due, t.
      unfold gate_ok in Hok. rewrite Ht in Hok. destruct Hok as [H10 Hq].
      repeat split; try assumption. apply Nat.leb_le, Hle.
  - destruct r as [[|d ds]|]; simpl; split; try exact Hok; left; reflexivity.
  - destruct (stopRecording_spec s) as (_ & _ & _ & _ & _ & _ & _ & Hl & Ht & _).
    split; [exact (gate_ok_frame toLowerCase s _ Ht Hl Hok) | left; exact Hl].
Qed.

Lemma lastDetectedText_written_only_by_timer_witness :
  gate_ok ascii_lower armed_state /\
  lastDetectedText (step ascii_lower armed_state (Deliver 200 (InText (Some final_chest_pain))))
  = lastDetectedText armed_state.
Proof.
  assert (Hok : gate_ok ascii_lower armed_state) by (split; vm_compute; [lia | reflexivity]).
  split; [exact Hok|].
  destruct (proj2 (lastDetectedText_written_only_by_timer ascii_lower armed_state
                     (Deliver 200 (InText (Some final_chest_pain))) Hok))
    as [H | (now & due & t & He & _)]; [exact H | discriminate He].
Defined.

(** ** Formatting and the history *)


Lemma jsstr_eqb_spec a b : jsstr_eqb a b = true <-> a = b.
Proof. unfold jsstr_eqb. destruct (jsstr_eq_dec a b); split; congruence. Qed.

Lemma jsstr_eqb_sym a b : jsstr_eqb a b = jsstr_eqb b a.
Proof.
  unfold jsstr_eqb. destruct (jsstr_eq_dec a b), (jsstr_eq_dec b a); congruence.
Qed.


Lemma keys_push k w g :
  map fst (push_group k w g) =
  map fst g ++ (if in_dec jsstr_eq_dec k (map fst g) then [] else [k]).
Proof.
  induction g as [|[k0 v0] g IH]; simpl; [reflexivity|].
  destruct (jsstr_eqb k0 k) eqn:E0; simpl.
  - apply jsstr_eqb_spec in E0; subst k0.
    destruct (jsstr_eq_dec k k); [|congruence].
    rewrite app_nil_r. reflexivity.
  - rewrite IH. f_equal.
    destruct (jsstr_eq_dec k0 k) as [e|]; [subst; rewrite (proj2 (jsstr_eqb_spec k k) eq_refl) in E0; discriminate|].
    destruct (in_dec jsstr_eq_dec k (map fst g)) as [Hi|Hi];
      destruct (in_dec jsstr_eq_dec k (k0 :: map fst g)) as [Hi'|Hi'];
      try reflexivity.
Qed.


Lemma keys_push_In k w g x : In x (map fst (push_group k w g)) <-> In x (map fst g) \/ x = k.
Proof.
  rewrite keys_push, in_app_iff.
  destruct (in_dec jsstr_eq_dec k (map fst g)); simpl; split; intuition (subst; auto).
Qed.

Definition group_step (g : WordGroups) (w : Word) : WordGroups :=
  push_group (speaker_of w) (word w) g.


Lemma insert_by_index_perm {A} (e : jsstr * A) l : Permutation (insert_by_index e l) (e :: l).
Proof.
  induction l as [|e' l IH]; simpl; [reflexivity|].
  destruct (digits_value (fst e) <? digits_value (fst e'))%N; [reflexivity|].
  rewrite IH. apply perm_swap.
Qed.

Lemma filter_partition_perm {A} (f : A -> bool) l :
  Permutation (filter f l ++ filter (fun x => negb (f x)) l) l.
Proof.
  induction l as [|x l IH]; simpl; [reflexivity|].
  destruct (f x); simpl.
  - constructor; exact IH.
  - rewrite <- Permutation_middle. constructor; exact IH.
Qed.

(** [Object.entries] lists exactly the properties, in some order. *)
Lemma object_entries_perm {A} (P : list (jsstr * A)) : Permutation (object_entries P) P.
Proof.
  unfold object_entries.
  assert (Hs : forall l : list (jsstr * A), Permutation (fold_right insert_by_index [] l) l).
  { induction l as [|e l IH]; simpl; [reflexivity|].
    rewrite insert_by_index_perm. constructor; exact IH. }
  rewrite Hs. apply (filter_partition_perm (fun e => is_array_index (fst e))).
Qed.


Lemma group_lookup_key k v (g : WordGroups) : group_lookup k g = Some v -> In k (map fst g).
Proof.
  induction g as [|[k0 v0] g IH]; simpl; [discriminate|].
  destruct (jsstr_eqb k0 k) eqn:E.
  - apply jsstr_eqb_spec in E; subst k0. intros _. left; reflexivity.
  - intro H. right. apply IH, H.
Qed.

(** The grouping loop once it has thrown. *)
Definition group_iter (acc : option WordGroups) (w : Word) : option WordGroups :=
  match acc with Some g => group_word g w | None => None end.

Lemma group_iter_None ws : fold_left group_iter ws None = None.
Proof. induction ws as [|w ws IH]; simpl; [reflexivity | exact IH]. Qed.

Lemma group_iter_fold ws : forall g,
  (forall k, In k (map fst g) -> is_proto_name k = false) ->
  fold_left group_iter ws (Some g)
  = if existsb (fun w => is_proto_name (speaker_of w)) ws then None
    else Some (fold_left group_step ws g).
Proof.
  induction ws as [|w ws IH]; intros g Hg; simpl; [reflexivity|].
  unfold group_word.
  destruct (is_proto_name (speaker_of w)) eqn:Ep; simpl.
  - destruct (group_lookup (speaker_of w) g) eqn:El.
    + apply group_lookup_key in El. rewrite (Hg _ El) in Ep. discriminate.
    + apply group_iter_None.
  - assert (Hk' : forall k, In k (map fst (group_step g w)) -> is_proto_name k = false).
    { intros k Hk. unfold group_step in Hk. apply keys_push_In in Hk.
      destruct Hk as [Hk|Hk]; [exact (Hg _ Hk) | subst k; exact Ep]. }
    destruct (group_lookup (speaker_of w) g); exact (IH _ Hk').
Qed.

(** The groups built by a run of the loop that does not throw. *)
Definition groups_of (ws : list Word) : WordGroups := fold_left group_step ws [].

(** The loop throws exactly when some word's speaker names an inherited
    member of [Object.prototype]; otherwise it builds [groups_of ws]. *)
Lemma speakerGroups_throws (ws : list Word) :
  speakerGroups ws
  = if existsb (fun w => is_proto_name (speaker_of w)) ws then None
    else Some (groups_of ws).
Proof.
  apply (group_iter_fold ws []). intros k [].
Qed.


Lemma proto_speaker_exists ws :
  existsb (fun w => is_proto_name (speaker_of w)) ws = true
  <-> exists w, In w ws /\ is_proto_name (speaker_of w) = true.
Proof. apply existsb_exists. Qed.








(** * Further properties of the session logic *)

(** ** Similarity gate *)

Lemma NoDup_incl_length' (a b : list jsstr) :
  NoDup a -> incl a b -> (length a <= length b)%nat.
Proof. apply NoDup_incl_length. Qed.

(** The score lies between 0 and 1. *)
Theorem similarity_bounds (toLowerCase : jsstr -> jsstr) (a b : jsstr) :
  (0 <= calculateSimilarity toLowerCase a b <= 1)%Q.
Proof.
  destruct a as [|ca ra]; [split; discriminate|].
  destruct b as [|cb rb]; [split; discriminate|].
  rewrite calculateSimilarity_unfold by reflexivity. cbv zeta.
  set (A := word_set toLowerCase (ca :: ra)). set (B := word_set toLowerCase (cb :: rb)).
  set (I := js_set (filter (fun x => mem x B) A)). set (U := js_set (A ++ B)).
  assert (Hle : (length I <= length U)%nat).
  { apply NoDup_incl_length'; [apply js_set_NoDup|].
    intros x Hx. unfold I in Hx. rewrite intersection_In in Hx. unfold U.
    rewrite union_In. tauto. }
  destruct (Nat.ltb 0 (length U)) eqn:Hu; [|split; discriminate].
  apply Nat.ltb_lt in Hu.
  assert (Hpos : (0 < inject_Z (Z.of_nat (length U)))%Q)
    by (change 0%Q with (inject_Z 0); rewrite <- Zlt_Qlt; lia).
  split.
  - apply Qle_shift_div_l; [exact Hpos|].
    rewrite Qmult_0_l. change 0%Q with (inject_Z 0). rewrite <- Zle_Qle. lia.
  - apply Qle_shift_div_r; [exact Hpos|].
    rewrite Qmult_1_l. rewrite <- Zle_Qle. lia.
Qed.

(** The score of a non-empty text depends on its lower-cased form only:
    two non-empty texts with the same lower-casing score alike against
    every other text. *)
Theorem similarity_case_insensitive (toLowerCase : jsstr -> jsstr) (a a' b : jsstr)
    (Ha : a <> []) (Ha' : a' <> []) (Hl : toLowerCase a = toLowerCase a') :
  calculateSimilarity toLowerCase a b = calculateSimilarity toLowerCase a' b /\
  calculateSimilarity toLowerCase b a = calculateSimilarity toLowerCase b a'.
Proof.
  assert (H : calculateSimilarity toLowerCase a b = calculateSimilarity toLowerCase a' b).
  { destruct a as [|ca ra]; [congruence|]. destruct a' as [|ca' ra']; [congruence|].
    destruct b as [|cb rb]; [reflexivity|].
    rewrite !calculateSimilarity_unfold by reflexivity. cbv zeta.
    unfold word_set. rewrite Hl. reflexivity. }
  split; [exact H|].
  destruct (similarity_gate_laws toLowerCase) as (_ & _ & Hsym & _).
  rewrite (Hsym b a), (Hsym b a'). exact H.
Qed.

Lemma similarity_case_insensitive_witness :
  calculateSimilarity ascii_lower (js "Chest Pain") (js "chest pain and fever")
  = calculateSimilarity ascii_lower (js "chest pain") (js "chest pain and fever").
Proof.
  exact (proj1 (similarity_case_insensitive ascii_lower (js "Chest Pain") (js "chest pain")
                  (js "chest pain and fever") ltac:(discriminate) ltac:(discriminate) eq_refl)).
Defined.

(** Asking again for the text analysed last never arms a timer: the
    request only cancels the pending one. *)
Theorem debounce_repeat_of_last_text (toLowerCase : jsstr -> jsstr) (now : nat) (s : App) :
  detectDiseasesDebounced toLowerCase now (lastDetectedText s) s = set_timer None s.
Proof.
  unfold detectDiseasesDebounced.
  destruct (Nat.ltb (length (lastDetectedText s)) 10) eqn:Hl; [reflexivity|].
  destruct (lastDetectedText s) as [|c r] eqn:E; [discriminate|].
  destruct (similarity_gate_laws toLowerCase) as (Hrefl & _).
  simpl lastDetectedText. rewrite E.
  assert (Hq : Qle_bool (calculateSimilarity toLowerCase (c :: r) (c :: r)) similarity_threshold = false).
  { apply not_true_iff_false. rewrite Qle_bool_iff, (Hrefl c r).
    unfold similarity_threshold, Qle. simpl. lia. }
  rewrite Hq. reflexivity.
Qed.

(** ** Aggregation of detections *)

Definition fresh_in (prev : list DiseaseHighlight) (d : DiseaseHighlight) : bool :=
  if in_dec name_eq_dec (disease_name d) (map disease_name prev) then false else true.

Lemma mergeDetections_eq prev incoming :
  mergeDetections prev incoming = prev ++ filter (fresh_in prev) incoming.
Proof. reflexivity. Qed.

(** A merge keeps the earlier detections as they were, in front, and
    appends only incoming detections whose name is new; afterwards every
    incoming detection's name is present. *)
Theorem mergeDetections_keeps_prefix_and_covers (prev incoming : list DiseaseHighlight) :
  (exists added,
     mergeDetections prev incoming = prev ++ added /\
     incl added incoming /\
     (forall d, In d added -> ~ In (disease_name d) (map disease_name prev))) /\
  (forall d, In d incoming ->
     In (disease_name d) (map disease_name (mergeDetections prev incoming))).
Proof.
  split.
  - exists (filter (fresh_in prev) incoming). split; [reflexivity|]. split.
    + intros d Hd. apply filter_In in Hd. tauto.
    + intros d Hd. apply filter_In in Hd. destruct Hd as [_ Hf].
      unfold fresh_in in Hf. destruct (in_dec _ _ _); [discriminate | assumption].
  - intros d Hd. rewrite mergeDetections_eq, map_app, in_app_iff.
    destruct (in_dec name_eq_dec (disease_name d) (map disease_name prev)) as [H|H];
      [left; exact H|].
    right. apply in_map, filter_In. split; [exact Hd|].
    unfold fresh_in. destruct (in_dec _ _ _); [contradiction | reflexivity].
Qed.

(** When the detections held have distinct names and so do those of a
    response, the merged set has distinct names too. *)
Theorem mergeDetections_unique_names (prev incoming : list DiseaseHighlight)
    (Hprev : NoDup (map disease_name prev)) (Hin : NoDup (map disease_name incoming)) :
  NoDup (map disease_name (mergeDetections prev incoming)).
Proof.
  rewrite mergeDetections_eq, map_app. apply NoDup_app; [exact Hprev| |].
  - clear Hprev. induction incoming as [|d ds IH]; simpl; [constructor|].
    inversion Hin as [|x l Hnotin Hds]; subst.
    destruct (fresh_in prev d); simpl; [|apply IH; exact Hds].
    constructor; [|apply IH; exact Hds].
    intro H. apply Hnotin. apply in_map_iff in H. destruct H as (d' & He & Hd').
    apply filter_In in Hd'. rewrite <- He. apply in_map. tauto.
  - intros n Hn Hn'. apply in_map_iff in Hn'. destruct Hn' as (d & He & Hd).
    apply filter_In in Hd. destruct Hd as [_ Hf]. unfold fresh_in in Hf.
    destruct (in_dec _ _ _) as [|Hno]; [discriminate|]. apply Hno. rewrite He. exact Hn.
Qed.

Definition bronchitis : DiseaseHighlight :=
  mkDisease (js "Bronchitis") (Some (js "Bronchitis")) (Some (js "J40")) (7 # 10) Medium (0, 10)%nat None.

Lemma mergeDetections_unique_names_witness :
  NoDup (map disease_name (mergeDetections [pneumonia (9 # 10)]
                                           [pneumonia (8 # 10); bronchitis])).
Proof.
  apply mergeDetections_unique_names.
  - constructor; [intros []| constructor].
  - simpl. constructor; [|constructor; [intros []| constructor]].
    intros [H|[]]. discriminate.
Defined.

(** The detection set of a recording only grows: over any events it
    keeps what it held as a prefix, and only an analysis response with
    detections changes it. *)
Lemma stopRecording_diseases s : diseases (stopRecording s) = diseases s.
Proof.
  destruct s as [sess w a r c l h it ld tm d o].
  unfold stopRecording.
  destruct a; destruct w as [[]|]; destruct sess as [sid|]; simpl;
    try (rewrite terminal_steps_spec; simpl); reflexivity.
Qed.

Lemma onMessage_diseases (toLowerCase : jsstr -> jsstr) now m s :
  diseases (onMessage toLowerCase now m s) = diseases s.
Proof.
  unfold onMessage. destruct (truthy_opt (error m)); [reflexivity|].
  unfold onText. destruct (text m) as [t|]; [|reflexivity].
  destruct (truthy t); [|reflexivity].
  destruct (formatTranscript m t) as [f|]; [|reflexivity].
  destruct (is_final m).
  - unfold detectDiseases. destruct (session _); reflexivity.
  - match goal with |- context [if ?b then _ else _] => destruct b end; [|reflexivity].
    unfold detectDiseasesDebounced.
    destruct (Nat.ltb _ _); [|destruct (negb _)]; reflexivity.
Qed.

Theorem diseases_grow (toLowerCase : jsstr -> jsstr) :
  forall es s, exists added, diseases (run toLowerCase s es) = diseases s ++ added.
Proof.
  induction es as [|e es IH]; intro s; simpl.
  - exists []. symmetry. apply app_nil_r.
  - destruct (IH (step toLowerCase s e)) as [a2 H2]. rewrite H2.
    assert (H1 : exists a1, diseases (step toLowerCase s e) = diseases s ++ a1).
    { destruct e as [now [[m|]|]|now|r| |code| |]; simpl;
        try (exists []; rewrite app_nil_r; reflexivity).
      - exists []. rewrite app_nil_r. apply onMessage_diseases.
      - exists []. rewrite app_nil_r. unfold timerCallback.
        destruct (diseaseDetectionTimer s) as [[due t]|]; [|reflexivity].
        destruct (Nat.leb due now); [|reflexivity].
        unfold detectDiseases. destruct (session _); reflexivity.
      - destruct r as [[|d ds]|]; try (exists []; rewrite app_nil_r; reflexivity).
        exists (filter (fresh_in (diseases s)) (d :: ds)). reflexivity.
      - exists []. rewrite app_nil_r. apply stopRecording_diseases. }
    destruct H1 as [a1 H1]. rewrite H1, <- app_assoc. eexists; reflexivity.
Qed.

(** ** Debounce and stop *)

Lemma set_timer_set_timer a b s : set_timer a (set_timer b s) = set_timer a s.
Proof. destruct s; reflexivity. Qed.

Lemma debounced_set_timer (toLowerCase : jsstr -> jsstr) now t x s :
  detectDiseasesDebounced toLowerCase now t (set_timer x s)
  = detectDiseasesDebounced toLowerCase now t s.
Proof. unfold detectDiseasesDebounced. rewrite set_timer_set_timer. reflexivity. Qed.

Lemma debounced_is_set_timer (toLowerCase : jsstr -> jsstr) now t s :
  exists x, detectDiseasesDebounced toLowerCase now t s = set_timer x s.
Proof.
  unfold detectDiseasesDebounced.
  destruct (Nat.ltb _ _); [eexists; reflexivity|].
  destruct (negb _); [eexists; reflexivity|].
  rewrite set_timer_set_timer. eexists; reflexivity.
Qed.

(** A newer debounced request supersedes an older one completely: the
    result is the one the newer request alone gives, so at most one
    analysis is ever pending, for the latest accepted text. *)
Theorem debounce_latest_request_wins (toLowerCase : jsstr -> jsstr) n1 t1 n2 t2 s :
  detectDiseasesDebounced toLowerCase n2 t2 (detectDiseasesDebounced toLowerCase n1 t1 s)
  = detectDiseasesDebounced toLowerCase n2 t2 s.
Proof.
  destruct (debounced_is_set_timer toLowerCase n1 t1 s) as [x Hx].
  rewrite Hx. apply debounced_set_timer.
Qed.

(** Stopping does not cancel a pending debounced analysis: when its due
    time comes after the stop, the request is still sent (with the
    session the handlers captured) and [lastDetectedText] is updated. *)
Theorem pending_analysis_survives_stop (toLowerCase : jsstr -> jsstr)
    (s : App) (sid t : jsstr) (due now : nat)
    (Htimer : diseaseDetectionTimer s = Some (due, t)) (Hsess : session s = Some sid)
    (Hdue : (due <= now)%nat) :
  let s1 := step toLowerCase s StopClicked in
  let s2 := step toLowerCase s1 (TimerDue now) in
  out s2 = out s1 ++ [AnalyzeCall t] /\ lastDetectedText s2 = t /\
  diseaseDetectionTimer s2 = None /\ isRecording s2 = false.
Proof.
  cbv zeta. simpl.
  destruct (stopRecording_spec s) as (H1 & _ & _ & _ & _ & H6 & _ & _ & H9 & _).
  unfold timerCallback. rewrite H9, Htimer.
  apply Nat.leb_le in Hdue. rewrite Hdue.
  unfold detectDiseases. simpl. rewrite H6, Hsess. simpl.
  repeat split; assumption || reflexivity.
Qed.

Lemma pending_analysis_survives_stop_witness :
  out (step ascii_lower (step ascii_lower armed_state StopClicked) (TimerDue 2000))
  = out (step ascii_lower armed_state StopClicked)
    ++ [AnalyzeCall (js "patient reports chest pain and shortness of breath")].
Proof.
  exact (proj1 (pending_analysis_survives_stop ascii_lower armed_state (js "s1")
                  (js "patient reports chest pain and shortness of breath") 1600 2000
                  eq_refl eq_refl ltac:(lia))).
Defined.

(** The blank-transcript alert of [generateSOAP]. *)
Definition no_transcript_alert : Effect :=
  Alert (js "No transcript available. Please record some conversation first.").

Lemma trim_nil : trim [] = [].
Proof. reflexivity. Qed.

(** What stopping sends at the end of a session: with a session and a
    history whose blank-line join is not blank after trimming, a SOAP
    request and then a recommendations request, both on that join, are
    the last two effects; with a blank history, only the blank-transcript
    alert, and no request; without a session, neither. *)
Theorem stop_terminal_requests (toLowerCase : jsstr -> jsstr) (s : App) :
  let full := join [10; 10]%N (liveTranscriptHistory s) in
  let s' := step toLowerCase s StopClicked in
  (forall sid, session s = Some sid -> trim full <> [] ->
     exists pre, out s' = out s ++ pre ++ [SoapCall full; RecCall full] /\
                 forallb (fun e => negb (is_terminal_call e)) pre = true) /\
  (forall sid, session s = Some sid -> trim full = [] ->
     exists pre, out s' = out s ++ pre ++ [no_transcript_alert] /\
                 forallb (fun e => negb (is_terminal_call e)) pre = true) /\
  (session s = None ->
     exists pre, out s' = out s ++ pre /\
                 forallb (fun e => negb (is_terminal_call e)) pre = true /\
                 ~ In no_transcript_alert pre).
Proof.
  cbv zeta. simpl.
  destruct (stopRecording_spec s) as (_ & _ & _ & _ & _ & _ & _ & _ & _ & H10).
  rewrite H10.
  set (pre := (if audioNodes s then [DisconnectAudio] else []) ++ socket_effects (ws s)).
  assert (Hpre : forallb (fun e => negb (is_terminal_call e)) pre = true /\
                 ~ In no_transcript_alert pre).
  { unfold pre. destruct (audioNodes s); destruct (ws s) as [[]|]; simpl;
      (split; [reflexivity | intuition discriminate]). }
  unfold terminal_effects.
  split; [|split].
  - intros sid Hs Ht. rewrite Hs.
    destruct (join [10; 10]%N (liveTranscriptHistory s)) as [|c r] eqn:E;
      [rewrite trim_nil in Ht; contradiction|].
    destruct (trim (c :: r)) eqn:E2; [contradiction|]. simpl.
    exists pre. split; [|tauto]. unfold pre. rewrite <- !app_assoc. reflexivity.
  - intros sid Hs Ht. rewrite Hs, Ht.
    exists pre. split; [|tauto]. unfold pre. rewrite orb_true_r, <- ?app_assoc. reflexivity.
  - intros Hs. rewrite Hs. exists pre. split; [|exact Hpre].
    unfold pre. rewrite app_nil_r, <- ?app_assoc. reflexivity.
Qed.

Lemma stop_terminal_requests_witness :
  exists pre,
    out (step ascii_lower (step ascii_lower (recording_state (js "s1"))
                             (Deliver 0 (InText (Some final_chest_pain)))) StopClicked)
    = [AnalyzeCall (js "chest pain since monday")] ++ pre
      ++ [SoapCall (js "chest pain since monday"); RecCall (js "chest pain since monday")] /\
    forallb (fun e => negb (is_terminal_call e)) pre = true.
Proof.
  exact (proj1 (stop_terminal_requests ascii_lower
                  (step ascii_lower (recording_state (js "s1"))
                     (Deliver 0 (InText (Some final_chest_pain)))))
           (js "s1") eq_refl ltac:(discriminate)).
Defined.

(** ** Elapsed time ([formatTime])

    [recordingTime] counts whole seconds from 0. [n.toString()] of a
    non-negative integer is its canonical decimal numeral. *)

Fixpoint uint_js (u : Decimal.uint) : jsstr :=
  match u with
  | Decimal.Nil => []
  | Decimal.D0 u => 48%N :: uint_js u
  | Decimal.D1 u => 49%N :: uint_js u
  | Decimal.D2 u => 50%N :: uint_js u
  | Decimal.D3 u => 51%N :: uint_js u
  | Decimal.D4 u => 52%N :: uint_js u
  | Decimal.D5 u => 53%N :: uint_js u
  | Decimal.D6 u => 54%N :: uint_js u
  | Decimal.D7 u => 55%N :: uint_js u
  | Decimal.D8 u => 56%N :: uint_js u
  | Decimal.D9 u => 57%N :: uint_js u
  end.

Definition nat_toString (n : nat) : jsstr := uint_js (Nat.to_uint n).

(** [s.padStart(2, '0')]. *)
Definition padStart2 (s : jsstr) : jsstr :=
  if Nat.ltb (length s) 2 then repeat 48%N (2 - length s) ++ s else s.

Definition formatTime (seconds : nat) : jsstr :=
  let mins := (seconds / 60)%nat in
  let secs := (seconds mod 60)%nat in
  nat_toString mins ++ [58%N] ++ padStart2 (nat_toString secs).

(** ** Audio frames ([processor.onaudioprocess])

    A sample of [getChannelData(0)] is a float32; [Num] is an IEEE
    double: a finite value (a rational), an infinity or NaN. A float32
    times [32767] is exact in binary64 (24 + 15 significant bits), so the
    product of a finite sample is the rational product. *)

Inductive Num := Fin (q : Q) | PosInf | NegInf | NaN.

Definition mul32767 (x : Num) : Num :=
  match x with
  | Fin q => Fin (q * 32767)
  | PosInf => PosInf
  | NegInf => NegInf
  | NaN => NaN
  end.

(** [Math.min(c, v)] and [Math.max(c, v)] for a finite constant [c]:
    NaN if [v] is NaN, otherwise the smaller (larger) value. *)
Definition math_min_c (c : Q) (v : Num) : Num :=
  match v with
  | Fin q => if Qle_bool c q then Fin c else Fin q
  | PosInf => Fin c
  | NegInf => NegInf
  | NaN => NaN
  end.

Definition math_max_c (c : Q) (v : Num) : Num :=
  match v with
  | Fin q => if Qle_bool q c then Fin c else Fin q
  | PosInf => PosInf
  | NegInf => Fin c
  | NaN => NaN
  end.

(** Truncation toward zero of a rational. *)
Definition trunc (q : Q) : Z := Z.quot (Qnum q) (Zpos (Qden q)).

(** ToInt16, the conversion of an [Int16Array] element store: NaN and the
    infinities give 0; otherwise truncate, reduce modulo [2^16] and map
    [[2^15, 2^16)] to the negatives. *)
Definition toInt16 (v : Num) : Z :=
  match v with
  | Fin q =>
      let m := (trunc q mod 65536)%Z in
      if (32768 <=? m)%Z then (m - 65536)%Z else m
  | _ => 0%Z
  end.

(** [pcm[i] = Math.max(-32768, Math.min(32767, inputData[i] * 32767))]. *)
Definition pcm_sample (x : Num) : Z :=
  toInt16 (math_max_c (-32768) (math_min_c 32767 (mul32767 x))).

(** One [onaudioprocess] callback: when [wsRef.current] is open, the
    frame [pcm.buffer] of one 16-bit sample per input sample is sent;
    otherwise nothing is sent. *)
Definition onaudioprocess (w : option ReadyState) (inputData : list Num) : option (list Z) :=
  match w with
  | Some OPEN => Some (map pcm_sample inputData)
  | _ => None
  end.

(** ** Properties of [formatTime] *)

Lemma uint_js_value u : forall acc,
  fold_left (fun acc c => (acc * 10 + (c - 48))%N) (uint_js u) (N.of_nat acc)
  = N.of_nat (Nat.of_uint_acc u acc).
Proof.
  induction u as [|u IH|u IH|u IH|u IH|u IH|u IH|u IH|u IH|u IH|u IH]; intro acc;
    simpl; [reflexivity|..]; rewrite <- IH; f_equal; rewrite Nat.tail_mul_spec; lia.
Qed.

Lemma nat_toString_value n : digits_value (nat_toString n) = N.of_nat n.
Proof.
  unfold digits_value, nat_toString. change 0%N with (N.of_nat 0).
  rewrite uint_js_value. f_equal. apply DecimalNat.Unsigned.of_to.
Qed.

Lemma uint_js_digits u : forallb is_digit (uint_js u) = true.
Proof. induction u; simpl; rewrite ?IHu; reflexivity. Qed.

Lemma nat_toString_nonempty n : nat_toString n <> [].
Proof.
  destruct n as [|n]; [discriminate|]. unfold nat_toString.
  pose proof (DecimalNat.Unsigned.of_to (S n)) as H.
  destruct (Nat.to_uint (S n)); [discriminate H|discriminate..].
Qed.

(** The seconds field, checked for each of its sixty values. *)
Definition secs_field_ok (k : nat) : bool :=
  Nat.eqb (length (padStart2 (nat_toString k))) 2
  && forallb is_digit (padStart2 (nat_toString k))
  && N.eqb (digits_value (padStart2 (nat_toString k))) (N.of_nat k).

Lemma secs_field_all : forallb secs_field_ok (seq 0 60) = true.
Proof. vm_compute. reflexivity. Qed.

Lemma secs_field k : (k < 60)%nat ->
  length (padStart2 (nat_toString k)) = 2%nat /\
  forallb is_digit (padStart2 (nat_toString k)) = true /\
  digits_value (padStart2 (nat_toString k)) = N.of_nat k.
Proof.
  intro Hk. pose proof secs_field_all as H. rewrite forallb_forall in H.
  specialize (H k (proj2 (in_seq 60 0 k) (conj (Nat.le_0_l k) Hk))).
  unfold secs_field_ok in H. apply andb_prop in H as [H H3]. apply andb_prop in H as [H1 H2].
  apply Nat.eqb_eq in H1. apply N.eqb_eq in H3. tauto.
Qed.

(** [formatTime(n)] is ["<mins>:<ss>"]: a non-empty decimal numeral, a
    colon, and exactly two digits; reading the two numerals back gives
    [mins * 60 + ss = n], so the display determines the elapsed time. *)
Theorem formatTime_round_trip (n : nat) :
  exists mins secs,
    formatTime n = mins ++ [58%N] ++ secs /\
    mins <> [] /\ forallb is_digit mins = true /\
    length secs = 2%nat /\ forallb is_digit secs = true /\
    (digits_value mins * 60 + digits_value secs)%N = N.of_nat n.
Proof.
  exists (nat_toString (n / 60)), (padStart2 (nat_toString (n mod 60))).
  destruct (secs_field (n mod 60) (Nat.mod_upper_bound n 60 ltac:(discriminate)))
    as (H1 & H2 & H3).
  split; [reflexivity|]. split; [apply nat_toString_nonempty|].
  split; [apply uint_js_digits|]. split; [exact H1|]. split; [exact H2|].
  rewrite H3, nat_toString_value.
  pose proof (Nat.div_mod_eq n 60). lia.
Qed.

(** ** Properties of the PCM conversion *)

Lemma Qeq_trunc a b : (a == b)%Q -> trunc a = trunc b.
Proof.
  unfold Qeq, trunc. destruct a as [n1 d1], b as [n2 d2]; simpl. intro H.
  rewrite <- (Z.quot_mul_cancel_r n1 (Zpos d1) (Zpos d2)) by discriminate.
  rewrite <- (Z.quot_mul_cancel_r n2 (Zpos d2) (Zpos d1)) by discriminate.
  rewrite H, (Z.mul_comm (Zpos d1) (Zpos d2)). reflexivity.
Qed.

Lemma trunc_mono a b : (a <= b)%Q -> (trunc a <= trunc b)%Z.
Proof.
  unfold Qle, trunc. destruct a as [n1 d1], b as [n2 d2]; simpl. intro H.
  rewrite <- (Z.quot_mul_cancel_r n1 (Zpos d1) (Zpos d2)) by discriminate.
  rewrite <- (Z.quot_mul_cancel_r n2 (Zpos d2) (Zpos d1)) by discriminate.
  rewrite (Z.mul_comm (Zpos d2)). apply Z.quot_le_mono; [lia | exact H].
Qed.

Lemma trunc_bounds (lo hi : Z) (c : Q) :
  (inject_Z lo <= c)%Q -> (c <= inject_Z hi)%Q -> (lo <= trunc c <= hi)%Z.
Proof.
  unfold Qle, trunc. destruct c as [n d]; simpl. intros Hlo Hhi.
  pose proof (Z.quot_rem' n (Zpos d)) as Hqr.
  pose proof (Z.rem_bound_abs n (Zpos d) ltac:(discriminate)) as Hr.
  change (Z.abs (Zpos d)) with (Zpos d) in Hr.
  set (q := Z.quot n (Zpos d)) in *. set (r := Z.rem n (Zpos d)) in *.
  assert (Hr' : (- Zpos d < r < Zpos d)%Z)
    by (destruct (Z.abs_spec r) as [[_ E]|[_ E]]; rewrite E in Hr; lia).
  split.
  - destruct (Z.le_gt_cases lo q) as [|Hq]; [assumption|].
    assert (Zpos d * q <= Zpos d * (lo - 1))%Z by (apply Z.mul_le_mono_nonneg_l; lia).
    lia.
  - destruct (Z.le_gt_cases q hi) as [|Hq]; [assumption|].
    assert (Zpos d * (hi + 1) <= Zpos d * q)%Z by (apply Z.mul_le_mono_nonneg_l; lia).
    lia.
Qed.

Lemma toInt16_in_range q :
  (-32768 <= trunc q <= 32767)%Z -> toInt16 (Fin q) = trunc q.
Proof.
  intro H. unfold toInt16.
  destruct (Z.le_gt_cases 0 (trunc q)).
  - rewrite Z.mod_small by lia. destruct (Z.leb_spec 32768 (trunc q)); lia.
  - assert (E : (trunc q mod 65536 = trunc q + 65536)%Z).
    { symmetry. apply (Z.mod_unique _ _ (-1)); lia. }
    rewrite E. destruct (Z.leb_spec 32768 (trunc q + 65536)); lia.
Qed.

(** The three cases of a finite sample. *)
Lemma pcm_sample_fin q :
  let v := (q * 32767)%Q in
  ((32767 <= v)%Q /\ pcm_sample (Fin q) = 32767%Z) \/
  ((v <= -32768)%Q /\ pcm_sample (Fin q) = (-32768)%Z) \/
  ((-32768 < v)%Q /\ (v < 32767)%Q /\ pcm_sample (Fin q) = trunc v).
Proof.
  cbv zeta. unfold pcm_sample, mul32767, math_min_c.
  destruct (Qle_bool 32767 (q * 32767)) eqn:E1.
  - left. apply Qle_bool_iff in E1. split; [exact E1 | reflexivity].
  - assert (H1 : (q * 32767 < 32767)%Q)
      by (apply Qnot_le_lt; rewrite <- Qle_bool_iff; congruence).
    unfold math_max_c. destruct (Qle_bool (q * 32767) (-32768)) eqn:E2.
    + right; left. apply Qle_bool_iff in E2. split; [exact E2 | reflexivity].
    + assert (H2 : (-32768 < q * 32767)%Q)
        by (apply Qnot_le_lt; rewrite <- Qle_bool_iff; congruence).
      right; right. split; [exact H2|]. split; [exact H1|].
      apply toInt16_in_range, (trunc_bounds (-32768) 32767);
        apply Qlt_le_weak; assumption.
Qed.

(** Each PCM sample the audio callback writes is the truncation of the
    scaled input when that lies in [[-32768, 32767]], saturates at the
    bounds beyond it (infinities included) and is 0 for NaN: the value
    always lies in the 16-bit range and never wraps around. *)
Theorem pcm_sample_spec :
  pcm_sample NaN = 0%Z /\ pcm_sample PosInf = 32767%Z /\ pcm_sample NegInf = (-32768)%Z /\
  forall q,
    (-32768 <= pcm_sample (Fin q) <= 32767)%Z /\
    ((-32768 <= q * 32767 <= 32767)%Q -> pcm_sample (Fin q) = trunc (q * 32767)) /\
    ((32767 <= q * 32767)%Q -> pcm_sample (Fin q) = 32767%Z) /\
    ((q * 32767 <= -32768)%Q -> pcm_sample (Fin q) = (-32768)%Z).
Proof.
  split; [reflexivity|]. split; [reflexivity|]. split; [reflexivity|].
  intro q.
  destruct (pcm_sample_fin q) as [(Hv & E)|[(Hv & E)|(Hlo & Hhi & E)]]; rewrite E.
  - split; [lia|]. split; [|split; [reflexivity|]].
    + intros [_ H]. rewrite (Qeq_trunc (q * 32767) 32767); [reflexivity|].
      apply Qle_antisym; assumption.
    + intro H. exfalso. apply (Qle_trans _ _ _ Hv H). reflexivity.
  - split; [lia|]. split; [|split].
    + intros [H _]. rewrite (Qeq_trunc (q * 32767) (-32768)); [reflexivity|].
      apply Qle_antisym; assumption.
    + intro H. exfalso. apply (Qle_trans _ _ _ H Hv). reflexivity.
    + reflexivity.
  - split; [apply (trunc_bounds (-32768) 32767); apply Qlt_le_weak; assumption|].
    split; [reflexivity|]. split.
    + intro H. exfalso. exact (Qlt_not_le _ _ Hhi H).
    + intro H. exfalso. exact (Qlt_not_le _ _ Hlo H).
Qed.

(** The conversion is monotone: a larger sample never gives a smaller
    16-bit value. *)
Theorem pcm_sample_monotone (q1 q2 : Q) (H : (q1 <= q2)%Q) :
  (pcm_sample (Fin q1) <= pcm_sample (Fin q2))%Z.
Proof.
  assert (Hv : (q1 * 32767 <= q2 * 32767)%Q)
    by (apply Qmult_le_compat_r; [exact H | discriminate]).
  assert (B2 : (-32768 <= pcm_sample (Fin q2) <= 32767)%Z)
    by (destruct (pcm_sample_fin q2) as [(_ & E)|[(_ & E)|(Hlo & Hhi & E)]]; rewrite E;
        [lia | lia | apply (trunc_bounds (-32768) 32767); apply Qlt_le_weak; assumption]).
  destruct (pcm_sample_fin q1) as [(Hv1 & E1)|[(Hv1 & E1)|(Hlo1 & Hhi1 & E1)]];
    rewrite E1.
  - destruct (pcm_sample_fin q2) as [(_ & E2)|[(Hv2 & _)|(_ & Hhi2 & _)]].
    + rewrite E2; lia.
    + exfalso. apply (Qlt_irrefl (-32768)).
      apply Qlt_le_trans with 32767%Q; [reflexivity|].
      apply Qle_trans with (q1 * 32767)%Q; [exact Hv1|].
      apply Qle_trans with (q2 * 32767)%Q; assumption.
    + exfalso. apply (Qlt_not_le _ _ Hhi2). apply Qle_trans with (q1 * 32767)%Q; assumption.
  - lia.
  - destruct (pcm_sample_fin q2) as [(_ & E2)|[(Hv2 & _)|(_ & _ & E2)]].
    + rewrite E2. apply (trunc_bounds (-32768) 32767); apply Qlt_le_weak; assumption.
    + exfalso. apply (Qlt_not_le _ _ Hlo1). apply Qle_trans with (q2 * 32767)%Q; assumption.
    + rewrite E2. apply trunc_mono. exact Hv.
Qed.

Lemma pcm_sample_monotone_witness :
  (pcm_sample (Fin (1 # 2)) <= pcm_sample (Fin (3 # 2)))%Z.
Proof. apply pcm_sample_monotone. discriminate. Defined.

(** ** Audio frames on the socket *)

(** A callback sends a frame exactly when the socket is open; the frame
    has one sample per input sample, each in the 16-bit range. *)
Theorem onaudioprocess_frame (w : option ReadyState) (inputData : list Num) :
  (onaudioprocess w inputData <> None <-> w = Some OPEN) /\
  (forall frame, onaudioprocess w inputData = Some frame ->
     length frame = length inputData /\
     Forall (fun z => (-32768 <= z <= 32767)%Z) frame).
Proof.
  split.
  - destruct w as [[]|]; simpl; split; congruence.
  - intros frame H. destruct w as [[]|]; simpl in H; try discriminate.
    injection H as <-. split; [apply length_map|].
    apply Forall_map, Forall_forall. intros x _.
    destruct x as [q| | |]; simpl; try (split; discriminate).
    apply (proj2 (proj2 (proj2 pcm_sample_spec)) q).
Qed.

Lemma onaudioprocess_frame_witness :
  onaudioprocess (Some OPEN) [Fin (1 # 2); NaN; PosInf] = Some [16383%Z; 0%Z; 32767%Z] /\
  length [16383%Z; 0%Z; 32767%Z] = length [Fin (1 # 2); NaN; PosInf].
Proof.
  split; [reflexivity|].
  exact (proj1 (proj2 (onaudioprocess_frame (Some OPEN) [Fin (1 # 2); NaN; PosInf])
           [16383%Z; 0%Z; 32767%Z] eq_refl)).
Defined.

(** After a stop no audio frame is sent, even if a callback of the
    processor still runs: the socket is closing, closed or absent. *)
Theorem no_audio_after_stop (toLowerCase : jsstr -> jsstr) (s : App) (inputData : list Num) :
  onaudioprocess (ws (step toLowerCase s StopClicked)) inputData = None.
Proof.
  simpl. destruct (stopRecording_spec s) as (_ & _ & _ & _ & H5 & _).
  rewrite H5. destruct (ws s) as [[]|]; reflexivity.
Qed.

(** ** Starting a recording ([startRecording])

    What the browser does with the media request: the microphone is
    refused ([getUserMedia] rejects), the audio graph cannot be built
    ([new AudioContext] or a node constructor throws), or the graph is
    connected. *)
Inductive MediaOutcome :=
| MicDenied (msg : jsstr)
| AudioFailed (msg : jsstr)
| AudioReady.

Definition mic_alert (msg : jsstr) : Effect :=
  Alert (js "Failed to access microphone: " ++ msg).

(** [startRecording()]: without a session an alert; otherwise, once the
    microphone is granted, [wsRef.current = new WebSocket(wsUrl)] (in
    state [CONNECTING]) and [setIsLiveTranscribing(true)], then the audio
    graph; a failure of any step is caught and alerted. *)
Definition startRecording (o : MediaOutcome) (s : App) : App :=
  match session s with
  | None => emit [Alert (js "Please start a session first")] s
  | Some _ =>
      match o with
      | MicDenied msg => emit [mic_alert msg] s
      | AudioFailed msg =>
          emit [mic_alert msg]
            (set_flags (isRecording s) (isConnected s) true (set_ws (Some CONNECTING) s))
      | AudioReady =>
          set_audio true
            (set_flags (isRecording s) (isConnected s) true (set_ws (Some CONNECTING) s))
      end
  end.

Definition is_alert (e : Effect) : bool :=
  match e with Alert _ => true | _ => false end.

(** Starting a recording keeps the session, the transcript history, the
    interim text, the detections, the last analysed text and a pending
    analysis as they are, leaves [isRecording] and [isConnected] to the
    socket's [onopen], and emits nothing but alerts. *)
Theorem startRecording_keeps_session_data (o : MediaOutcome) (s : App) :
  let s' := startRecording o s in
  session s' = session s /\
  liveTranscriptHistory s' = liveTranscriptHistory s /\
  liveTranscript s' = liveTranscript s /\
  diseases s' = diseases s /\
  lastDetectedText s' = lastDetectedText s /\
  diseaseDetectionTimer s' = diseaseDetectionTimer s /\
  isRecording s' = isRecording s /\ isConnected s' = isConnected s /\
  exists fx, out s' = out s ++ fx /\ forallb is_alert fx = true.
Proof.
  cbv zeta. destruct s as [sess w a r c l h it ld tm d fx0].
  unfold startRecording; simpl.
  destruct sess as [sid|]; [destruct o as [msg|msg|]|]; simpl;
    repeat split; try reflexivity;
    first [ exists []; rewrite app_nil_r; split; reflexivity
          | eexists; split; reflexivity ].
Qed.

(** Starting again while the socket is open replaces it by a new,
    connecting socket without closing the old one and without
    disconnecting the old audio nodes: no effect at all is emitted, and
    no audio frame is sent until the new socket opens. *)
Theorem restart_drops_open_socket (s : App) (sid : jsstr)
    (Hsess : session s = Some sid) (Hws : ws s = Some OPEN) :
  let s' := startRecording AudioReady s in
  ws s' = Some CONNECTING /\ out s' = out s /\ audioNodes s' = true /\
  forall inputData, onaudioprocess (ws s') inputData = None.
Proof.
  cbv zeta. unfold startRecording. rewrite Hsess. simpl.
  repeat split; reflexivity.
Qed.

Lemma restart_drops_open_socket_witness :
  out (startRecording AudioReady (recording_state (js "s1"))) = out (recording_state (js "s1")).
Proof.
  exact (proj1 (proj2 (restart_drops_open_socket (recording_state (js "s1"))
                          (js "s1") eq_refl eq_refl))).
Defined.

(** ** The socket URL ([buildWsUrl]) *)

Record URLParts := mkURL {
  protocol : jsstr;
  host : jsstr;
  pathname : jsstr
}.

Fixpoint prefixb (p s : jsstr) : bool :=
  match p, s with
  | [], _ => true
  | c :: p', d :: s' => N.eqb c d && prefixb p' s'
  | _ :: _, [] => false
  end.

(** [s.replace(/^lit/, rep)] for a literal pattern and a replacement
    without [$]. *)
Definition replace_prefix (pat rep s : jsstr) : jsstr :=
  if prefixb pat s then rep ++ skipn (length pat) s else s.

(** [p.replace(/\/$/, '')]: without the [m] flag [$] only matches at the
    end of the input, so at most one final ['/'] is removed. *)
Definition strip_trailing_slash (p : jsstr) : jsstr :=
  match rev p with
  | 47%N :: r => rev r
  | _ => p
  end.

Definition stream_path : jsstr := js "/v1/transcribe/stream?session_id=".

(** The [try] branch, from the parts of the parsed URL. *)
Definition url_from_parts (u : URLParts) (session_id : jsstr) : jsstr :=
  let wsProtocol := if jsstr_eqb (protocol u) (js "https:") then js "wss:" else js "ws:" in
  wsProtocol ++ js "//" ++ host u ++ strip_trailing_slash (pathname u) ++ stream_path ++ session_id.

(** The [catch] branch. *)
Definition fallback_url (base session_id : jsstr) : jsstr :=
  replace_prefix (js "http:") (js "ws:") (replace_prefix (js "https:") (js "wss:") base)
  ++ stream_path ++ session_id.

Section WsUrl.
(** [new URL(base)], [None] when it throws. *)
Variable parseURL : jsstr -> option URLParts.

Definition buildWsUrl (base session_id : jsstr) : jsstr :=
  match parseURL base with
  | Some u => url_from_parts u session_id
  | None => fallback_url base session_id
  end.

End WsUrl.

(** ** Properties of [buildWsUrl] *)

Lemma strip_trailing_slash_snoc p : strip_trailing_slash (p ++ [47%N]) = p.
Proof. unfold strip_trailing_slash. rewrite rev_app_distr. simpl. apply rev_involutive. Qed.

(** The path of the parsed base URL loses exactly one final ['/']: a
    base path ["/api"] and ["/api/"] (and the root ["/"], which gives an
    empty path) lead to the same socket URL, while ["/api//"] keeps one
    slash and yields a double slash before [v1]. The scheme is [wss:]
    for [https:] and [ws:] for every other protocol. *)
Theorem url_from_parts_path (pr h p session_id : jsstr) :
  let scheme := if jsstr_eqb pr (js "https:") then js "wss:" else js "ws:" in
  url_from_parts (mkURL pr h (p ++ [47%N])) session_id
    = scheme ++ js "//" ++ h ++ p ++ stream_path ++ session_id /\
  url_from_parts (mkURL pr h (p ++ [47%N; 47%N])) session_id
    = scheme ++ js "//" ++ h ++ p ++ js "/" ++ stream_path ++ session_id /\
  (hd_error (rev p) <> Some 47%N ->
   url_from_parts (mkURL pr h p) session_id
     = scheme ++ js "//" ++ h ++ p ++ stream_path ++ session_id).
Proof.
  cbv zeta. unfold url_from_parts; simpl protocol; simpl host; simpl pathname.
  split; [|split].
  - rewrite strip_trailing_slash_snoc. reflexivity.
  - replace (p ++ [47%N; 47%N]) with ((p ++ [47%N]) ++ [47%N]) by (rewrite <- app_assoc; reflexivity).
    rewrite strip_trailing_slash_snoc, <- app_assoc. reflexivity.
  - intro H. unfold strip_trailing_slash.
    destruct (rev p) as [|c r] eqn:E; [reflexivity|].
    destruct (N.eq_dec c 47) as [->|Hc]; [contradiction|].
    destruct c as [|c]; [reflexivity|].
    repeat (destruct c as [c|c|]; try reflexivity). contradiction.
Qed.

Lemma url_from_parts_path_witness :
  url_from_parts (mkURL (js "https:") (js "h.example") (js "/api")) (js "s1")
  = js "wss://h.example/api/v1/transcribe/stream?session_id=s1".
Proof.
  rewrite (proj2 (proj2 (url_from_parts_path (js "https:") (js "h.example") (js "/api") (js "s1")))).
  - reflexivity.
  - discriminate.
Defined.

(** When [new URL(base)] throws, the scheme is rewritten by prefix: a
    leading [https:] becomes [wss:] (and is not rewritten again by the
    second replace), a leading [http:] becomes [ws:], any other base is
    kept as it is; the stream path and the session id follow. *)
Theorem buildWsUrl_fallback (parseURL : jsstr -> option URLParts) (base session_id : jsstr)
    (Hparse : parseURL base = None) :
  (forall r, base = js "https:" ++ r ->
     buildWsUrl parseURL base session_id = js "wss:" ++ r ++ stream_path ++ session_id) /\
  (forall r, base = js "http:" ++ r ->
     buildWsUrl parseURL base session_id = js "ws:" ++ r ++ stream_path ++ session_id) /\
  (prefixb (js "https:") base = false -> prefixb (js "http:") base = false ->
     buildWsUrl parseURL base session_id = base ++ stream_path ++ session_id).
Proof.
  unfold buildWsUrl. rewrite Hparse. unfold fallback_url, replace_prefix.
  split; [|split].
  - intros r ->. simpl. rewrite ?N.eqb_refl. reflexivity.
  - intros r ->. simpl. reflexivity.
  - intros H1 H2. rewrite H1, H2. reflexivity.
Qed.

Lemma buildWsUrl_fallback_witness :
  buildWsUrl (fun _ => None) (js "https://h.example") (js "s1")
  = js "wss://h.example/v1/transcribe/stream?session_id=s1".
Proof.
  exact (proj1 (buildWsUrl_fallback (fun _ => None) (js "https://h.example") (js "s1") eq_refl)
           (js "//h.example") eq_refl).
Defined.

(** ** Words of a formatted segment *)

Lemma push_group_concat k w (g : WordGroups) :
  Permutation (concat (map snd (push_group k w g))) (concat (map snd g) ++ [w]).
Proof.
  induction g as [|[k0 v0] g IH]; simpl; [reflexivity|].
  destruct (jsstr_eqb k0 k); simpl.
  - rewrite <- !app_assoc. apply Permutation_app_head. apply Permutation_app_comm.
  - rewrite <- app_assoc. apply Permutation_app_head. exact IH.
Qed.

Lemma speakerGroups_concat ws : forall acc : WordGroups,
  Permutation (concat (map snd (fold_left group_step ws acc)))
              (concat (map snd acc) ++ map word ws).
Proof.
  induction ws as [|w ws IH]; intro acc; simpl.
  - rewrite app_nil_r. reflexivity.
  - rewrite IH. unfold group_step. rewrite push_group_concat, <- app_assoc. reflexivity.
Qed.

(** The grouping of a message's words throws exactly when some word's
    speaker names an inherited member of [Object.prototype]; when it
    does not, the speaker lines of the formatted segment hold, together,
    every word of the message exactly once: no word is lost or repeated
    by the grouping or by the key order of the object. *)
Theorem speaker_lines_keep_every_word (ws : list Word) :
  (speakerGroups ws = None <-> exists w, In w ws /\ is_proto_name (speaker_of w) = true) /\
  (forall G, speakerGroups ws = Some G ->
     Permutation (concat (map snd (object_entries G))) (map word ws)).
Proof.
  rewrite speakerGroups_throws, <- proto_speaker_exists. split.
  - destruct (existsb _ _); split; congruence.
  - intros G HG. destruct (existsb _ _); [discriminate|]. injection HG as <-.
    rewrite (Permutation_map snd (object_entries_perm (groups_of ws))).
    apply (speakerGroups_concat ws []).
Qed.

(** ** Sessions ([startSession]) *)

Definition set_session (sid : option jsstr) (s : App) : App :=
  mkApp sid (ws s) (audioNodes s) (isRecording s) (isConnected s)
    (isLiveTranscribing s) (liveTranscriptHistory s) (liveTranscript s)
    (lastDetectedText s) (diseaseDetectionTimer s) (diseases s) (out s).

(** The settled [POST /v1/sessions] of [startSession]: the parsed body's
    [session_id] on a 2xx response, or the message of the error thrown
    (a non-2xx status, a network failure or an unparsable body). *)
Inductive SessionResponse :=
| SessionCreated (session_id : jsstr)
| SessionFailed (msg : jsstr).

Definition startSession (r : SessionResponse) (s : App) : App :=
  match r with
  | SessionCreated sid => set_session (Some sid) s
  | SessionFailed msg => emit [Alert (js "Failed to start session: " ++ msg)] s
  end.

(** Starting a new session does not reset the recording data: the
    transcript history, the detections, the last analysed text and a
    pending analysis carry over, so the next stop sends the earlier
    session's transcript under the new session id; a failed creation
    keeps the current session and only alerts. *)
Theorem new_session_keeps_transcript (toLowerCase : jsstr -> jsstr) (r : SessionResponse)
    (s : App) :
  let s' := startSession r s in
  liveTranscriptHistory s' = liveTranscriptHistory s /\ diseases s' = diseases s /\
  lastDetectedText s' = lastDetectedText s /\
  diseaseDetectionTimer s' = diseaseDetectionTimer s /\
  (forall sid, r = SessionCreated sid ->
     session s' = Some sid /\
     out (step toLowerCase s' StopClicked)
     = out s ++ (if audioNodes s then [DisconnectAudio] else []) ++ socket_effects (ws s)
              ++ terminal_effects (Some sid) (liveTranscriptHistory s)) /\
  (forall msg, r = SessionFailed msg ->
     session s' = session s /\ out s' = out s ++ [Alert (js "Failed to start session: " ++ msg)]).
Proof.
  cbv zeta. destruct r as [sid|msg]; simpl;
    (do 4 (split; [reflexivity|])); split.
  - intros sid' [= <-]. split; [reflexivity|].
    destruct (stopRecording_spec (set_session (Some sid) s)) as (_ & _ & _ & _ & _ & _ & _ & _ & _ & H).
    exact H.
  - intros msg [=].
  - intros sid [=].
  - intros msg' [= <-]. split; reflexivity.
Qed.

Lemma new_session_keeps_transcript_witness :
  session (startSession (SessionCreated (js "s2")) (recording_state (js "s1"))) = Some (js "s2").
Proof.
  exact (proj1 (proj1 (proj2 (proj2 (proj2 (proj2
           (new_session_keeps_transcript ascii_lower (SessionCreated (js "s2"))
              (recording_state (js "s1")))))))
           (js "s2") eq_refl)).
Defined.

(** ** Server-side close *)

(** When the server closes the socket, the client marks itself
    disconnected but stays in the recording state ([isRecording] and
    [isLiveTranscribing] are kept) while no audio frame is sent any
    more. *)
Theorem server_close_keeps_recording_flags (toLowerCase : jsstr -> jsstr) (code : N)
    (s : App) (inputData : list Num) :
  let s' := step toLowerCase s (SocketClose code) in
  isConnected s' = false /\ isRecording s' = isRecording s /\
  isLiveTranscribing s' = isLiveTranscribing s /\ audioNodes s' = audioNodes s /\
  onaudioprocess (ws s') inputData = None /\ out s' = out s.
Proof. cbv zeta. simpl. repeat split; reflexivity. Qed.
